(** * wasm-ql: a shallow embedding of the query host and of the guest
    database header.

    Sources embedded:
    - src/src/wasm_ql.cpp : the host-call bridge ([callbacks]), the fork
      check ([did_fork]), the retry loop ([retry_loop]), the multi-request
      driver ([query]) and the legacy driver ([legacy_query]);
    - src/libraries/eosiolib/wasmql/eosio/database.hpp : [increment_key]
      and [for_each_query_result] / [for_each_contract_row].

    Bytes are [Z] values in [0, 256); fixed-width integers are [Z] with
    their wrap-around written out. *)

From Stdlib Require Import ZArith List Bool Lia String Ascii.
Import ListNotations.
Open Scope Z_scope.

(* ------------------------------------------------------------------ *)
(** ** Fixed-width integers *)

Definition wrap (w : Z) (x : Z) : Z := x mod 2 ^ w.
Definition u32 (x : Z) : Z := wrap 32 x.
Definition in_width (w x : Z) : Prop := 0 <= x < 2 ^ w.

(* ------------------------------------------------------------------ *)
(** ** Wire primitives (abieos), used by the driver *)

Module Wire.

(** [abieos::push_varuint32]: 7 data bits per byte, high bit = more. *)
Fixpoint push_varuint32_aux (fuel : nat) (v : Z) : list Z :=
  match fuel with
  | O => []
  | S fuel' =>
      let b := Z.land v 127 in
      let v' := Z.shiftr v 7 in
      if v' >? 0 then Z.lor b 128 :: push_varuint32_aux fuel' v'
      else [b]
  end.

(** A [uint32_t] needs at most five groups of seven bits. *)
Definition push_varuint32 (v : Z) : list Z := push_varuint32_aux 5 (u32 v).

(** [abieos::read_varuint32]: at most five bytes; [None] is the thrown
    deserialisation error. *)
Fixpoint read_varuint32_aux (fuel : nat) (shift : Z) (acc : Z) (bin : list Z)
  : option (Z * list Z) :=
  match fuel with
  | O => None (* shift >= 35: invalid varuint32 encoding *)
  | S fuel' =>
      match bin with
      | [] => None
      | b :: rest =>
          let acc' := Z.lor acc (u32 (Z.shiftl (Z.land b 127) shift)) in
          if Z.testbit b 7 then read_varuint32_aux fuel' (shift + 7) acc' rest
          else Some (acc', rest)
      end
  end.

Definition read_varuint32 (bin : list Z) : option (Z * list Z) :=
  read_varuint32_aux 5 0 0 bin.

(** [read_raw<uint64_t>]: eight little-endian bytes. *)
Fixpoint le_value (bs : list Z) : Z :=
  match bs with
  | [] => 0
  | b :: rest => b + 256 * le_value rest
  end.

Definition read_u64 (bin : list Z) : option (Z * list Z) :=
  if (8 <=? List.length bin)%nat then Some (le_value (firstn 8 bin), skipn 8 bin)
  else None.

(** [bin_to_native<input_buffer>]: a [varuint32] length then that many
    bytes, returned as a view. *)
Definition read_input_buffer (bin : list Z) : option (list Z * list Z) :=
  match read_varuint32 bin with
  | None => None
  | Some (len, rest) =>
      if (Z.to_nat len <=? List.length rest)%nat
      then Some (firstn (Z.to_nat len) rest, skipn (Z.to_nat len) rest)
      else None
  end.

(** [native_to_bin] of a [uint32_t]: four little-endian bytes. *)
Definition u32_bytes (x : Z) : list Z :=
  [Z.land x 255; Z.land (Z.shiftr x 8) 255;
   Z.land (Z.shiftr x 16) 255; Z.land (Z.shiftr x 24) 255].

(** [native_to_bin] of a [std::string] or [std::vector<char>]. *)
Definition bytes_bin (bs : list Z) : list Z :=
  push_varuint32 (Z.of_nat (List.length bs)) ++ bs.

(** [eosio::name] literals: [char_to_symbol] and [string_to_name]. *)
Definition char_to_symbol (c : ascii) : Z :=
  let n := Z.of_nat (nat_of_ascii c) in
  if (97 <=? n) && (n <=? 122) then n - 97 + 6
  else if (49 <=? n) && (n <=? 53) then n - 49 + 1
  else 0.

Fixpoint string_to_name_aux (i : Z) (s : string) : Z :=
  match s with
  | EmptyString => 0
  | String c rest =>
      let sym := char_to_symbol c in
      let here :=
        if i <? 12 then Z.shiftl (Z.land sym 31) (64 - 5 * (i + 1))
        else if i =? 12 then Z.land sym 15
        else 0 in
      Z.lor here (string_to_name_aux (i + 1) rest)
  end.

Definition string_to_name (s : string) : Z := string_to_name_aux 0 s.

Definition local_n : Z := string_to_name "local".
Definition legacy_n : Z := string_to_name "legacy".

End Wire.

(* ------------------------------------------------------------------ *)
(** ** database.hpp: [increment_key] *)

Module Key.

(** [inline bool increment_key(uintW_t& key) { return !++key; }]: the
    result is the new key and whether it wrapped to zero. *)
Definition increment_key_w (w : Z) (key : Z) : bool * Z :=
  let key' := wrap w (key + 1) in (key' =? 0, key').

Definition increment_key_u8 := increment_key_w 8.
Definition increment_key_u16 := increment_key_w 16.
Definition increment_key_u32 := increment_key_w 32.
Definition increment_key_u64 := increment_key_w 64.
Definition increment_key_u128 := increment_key_w 128.

(** [name] wraps a [uint64_t value]. *)
Record name := mk_name { name_value : Z }.

Definition increment_key_name (key : name) : bool * name :=
  let (b, v) := increment_key_u64 (name_value key) in (b, mk_name v).

(** [checksum256] is [fixed_bytes<32>]: two [uint128_t] words, [data()[0]]
    first; its [operator<] compares the word array lexicographically. *)
Record checksum256 := mk_checksum { cs_word0 : Z; cs_word1 : Z }.

(** [increment_key(key.data()[1]) && increment_key(key.data()[0])]: the
    [&&] only evaluates the second increment when the first wrapped. *)
Definition increment_key_checksum (key : checksum256) : bool * checksum256 :=
  let (b1, w1) := increment_key_u128 (cs_word1 key) in
  if b1 then
    let (b0, w0) := increment_key_u128 (cs_word0 key) in
    (b0, mk_checksum w0 w1)
  else (false, mk_checksum (cs_word0 key) w1).

(** [query_action_trace_executed_range_name_receiver_account_block_trans_action::key] *)
Record aet_key := mk_aet_key {
  k_name : name;
  k_receipt_receiver : name;
  k_account : name;
  k_block_index : Z;
  k_transaction_id : checksum256;   (* serial_wrapper<checksum256>::value *)
  k_action_index : Z
}.

(** The chain of [&&] in [increment_key(...::key&)], written out: each
    conjunct runs only if the one before returned [true]. *)
Definition increment_key_aet (key : aet_key) : bool * aet_key :=
  let '(b6, ai) := increment_key_u32 (k_action_index key) in
  if negb b6 then (false, {| k_name := k_name key; k_receipt_receiver := k_receipt_receiver key;
                             k_account := k_account key; k_block_index := k_block_index key;
                             k_transaction_id := k_transaction_id key; k_action_index := ai |}) else
  let '(b5, tid) := increment_key_checksum (k_transaction_id key) in
  if negb b5 then (false, {| k_name := k_name key; k_receipt_receiver := k_receipt_receiver key;
                             k_account := k_account key; k_block_index := k_block_index key;
                             k_transaction_id := tid; k_action_index := ai |}) else
  let '(b4, bi) := increment_key_u32 (k_block_index key) in
  if negb b4 then (false, {| k_name := k_name key; k_receipt_receiver := k_receipt_receiver key;
                             k_account := k_account key; k_block_index := bi;
                             k_transaction_id := tid; k_action_index := ai |}) else
  let '(b3, acc) := increment_key_name (k_account key) in
  if negb b3 then (false, {| k_name := k_name key; k_receipt_receiver := k_receipt_receiver key;
                             k_account := acc; k_block_index := bi;
                             k_transaction_id := tid; k_action_index := ai |}) else
  let '(b2, rr) := increment_key_name (k_receipt_receiver key) in
  if negb b2 then (false, {| k_name := k_name key; k_receipt_receiver := rr;
                             k_account := acc; k_block_index := bi;
                             k_transaction_id := tid; k_action_index := ai |}) else
  let '(b1, nm) := increment_key_name (k_name key) in
  (b1, {| k_name := nm; k_receipt_receiver := rr;
          k_account := acc; k_block_index := bi;
          k_transaction_id := tid; k_action_index := ai |}).

(** A key as its fields in declared order, each with its bit width
    (a [checksum256] contributes its two words). *)
Definition cs_fields (c : checksum256) : list (Z * Z) :=
  [(128, cs_word0 c); (128, cs_word1 c)].

Definition aet_fields (k : aet_key) : list (Z * Z) :=
  [(64, name_value (k_name k)); (64, name_value (k_receipt_receiver k));
   (64, name_value (k_account k)); (32, k_block_index k)]
  ++ cs_fields (k_transaction_id k) ++ [(32, k_action_index k)].

(** Lexicographic order on field values. *)
Fixpoint lex_lt (xs ys : list Z) : Prop :=
  match xs, ys with
  | x :: xs', y :: ys' => x < y \/ (x = y /\ lex_lt xs' ys')
  | _, _ => False
  end.

Definition key_lt (a b : aet_key) : Prop :=
  lex_lt (map snd (aet_fields a)) (map snd (aet_fields b)).

Definition cs_lt (a b : checksum256) : Prop :=
  lex_lt (map snd (cs_fields a)) (map snd (cs_fields b)).

(** The spec's successor of a composite key: increment the last field;
    on wrap carry to the field before it, and so on; the flag is the wrap
    of the first field. *)
Fixpoint succ_fields (fs : list (Z * Z)) : bool * list (Z * Z) :=
  match fs with
  | [] => (true, [])
  | (w, v) :: rest =>
      let (carry, rest') := succ_fields rest in
      if carry then
        let v' := wrap w (v + 1) in (v' =? 0, (w, v') :: rest')
      else (false, (w, v) :: rest')
  end.

Definition fields_ok (fs : list (Z * Z)) : Prop :=
  Forall (fun '(w, v) => 0 < w /\ in_width w v) fs.

Definition all_max (fs : list (Z * Z)) : Prop :=
  Forall (fun '(w, v) => v = 2 ^ w - 1) fs.

End Key.

(* ------------------------------------------------------------------ *)
(** ** Errors and the host's state/exception monad *)

(** The host-visible error kinds ([std::runtime_error] messages of
    wasm_ql.cpp, plus faults raised below the host). *)
Inductive exc :=
| E_bad_memory                 (* "bad memory" *)
| E_bad_callback_return        (* "cb_alloc returned incorrect type" *)
| E_guest_abort                (* "called abort", eosio_assert_message *)
| E_guest_trap                 (* fault raised by the interpreter *)
| E_empty_database             (* "database is empty" *)
| E_too_many_forks             (* "too many fork events during request" *)
| E_unknown_namespace          (* "unknown namespace: ..." *)
| E_bad_stream                 (* abieos deserialisation error *)
| E_retry_fuel.                (* the retry recursion ran past four iterations *)

(** A C++ statement either returns, throws (its side effects on the state
    persist, as with exceptions), or touches guest bytes outside the
    guest's linear memory ([Oob]). *)
Inductive outcome (S A : Type) :=
| Ret (a : A) (s : S)
| Thr (e : exc) (s : S)
| Oob (s : S).
Arguments Ret {S A}. Arguments Thr {S A}. Arguments Oob {S A}.

Definition M (S A : Type) := S -> outcome S A.

Definition ret {S A} (a : A) : M S A := fun s => Ret a s.
Definition throw {S A} (e : exc) : M S A := fun s => Thr e s.
Definition bind {S A B} (m : M S A) (k : A -> M S B) : M S B :=
  fun s => match m s with
           | Ret a s' => k a s'
           | Thr e s' => Thr e s'
           | Oob s' => Oob s'
           end.

Notation "x <- m ;; k" := (bind m (fun x => k)) (at level 61, m at next level, right associativity).
Notation "m ;;; k" := (bind m (fun _ => k)) (at level 61, right associativity).

(* ------------------------------------------------------------------ *)
(** ** wasm_ql.cpp: [struct callbacks], the host-call bridge *)

Module Host.

Inductive wasm_value := I32 (x : Z) | I64 (x : Z) | F32 (x : Z) | F64 (x : Z).

(** The part of [thread_state] and of the guest instance the callbacks
    touch.  Guest pointers are 32-bit offsets into [h_mem]; the host
    pointer [get_base_ptr() + off] is represented by [off]. *)
Record host := mk_host {
  h_mem : list Z;                    (* guest linear memory *)
  h_reply : list Z;                  (* thread_state.reply *)
  h_console_out : list Z;            (* bytes written to std::cerr *)
  h_table_calls : list (Z * Z * Z)   (* execute_func_table(idx, data, size) calls, latest first *)
}.

Definition set_mem (m : list Z) (h : host) : host :=
  mk_host m (h_reply h) (h_console_out h) (h_table_calls h).
Definition set_reply (r : list Z) (h : host) : host :=
  mk_host (h_mem h) r (h_console_out h) (h_table_calls h).
Definition add_console (bs : list Z) (h : host) : host :=
  mk_host (h_mem h) (h_reply h) (h_console_out h ++ bs) (h_table_calls h).
Definition log_table_call (c : Z * Z * Z) (h : host) : host :=
  mk_host (h_mem h) (h_reply h) (h_console_out h) (c :: h_table_calls h).

(** Reading guest bytes [begin, end) through a host pointer. *)
Definition read_mem (b e : Z) : M host (list Z) :=
  fun h => if (0 <=? b) && (b <=? e) && (e <=? Z.of_nat (List.length (h_mem h)))
           then Ret (firstn (Z.to_nat (e - b)) (skipn (Z.to_nat b) (h_mem h))) h
           else Oob h.

(** [memcpy(base + off, bs.data(), bs.size())]. *)
Definition write_mem (off : Z) (bs : list Z) : M host unit :=
  fun h => if (0 <=? off) && (off + Z.of_nat (List.length bs) <=? Z.of_nat (List.length (h_mem h)))
           then Ret tt (set_mem (firstn (Z.to_nat off) (h_mem h) ++ bs
                                 ++ skipn (Z.to_nat off + List.length bs) (h_mem h)) h)
           else Oob h.

Section Callbacks.

(** [backend.get_context().execute_func_table(..., cb_alloc, cb_alloc_data, size)]
    on the current memory: [None] when the guest function traps, otherwise
    its optional return value and the memory it leaves behind. *)
Variable execute_func_table : list Z -> Z -> Z -> Z -> option (option wasm_value * list Z).
(** [thread_state.database_status], the unread request bytes, the console
    flag, and [query_session->query_database(req, fill_status.head)]. *)
Variable database_status : list Z.
Variable request_rest : list Z.
Variable console : bool.
Variable session_query_database : list Z -> list Z.

(** [check_bounds]: only [begin > end] is rejected; the source has
    [// todo: check bounds] where the memory-size check would go. *)
Definition check_bounds (b e : Z) : M host unit :=
  if b >? e then throw E_bad_memory else ret tt.

Definition alloc (cb_alloc_data cb_alloc size : Z) : M host Z :=
  fun h =>
    let h1 := log_table_call (cb_alloc, cb_alloc_data, size) h in
    match execute_func_table (h_mem h) cb_alloc cb_alloc_data size with
    | None => Thr E_guest_trap h1
    | Some (result, mem') =>
        let h2 := set_mem mem' h1 in
        match result with
        | Some (I32 x) =>
            (let b := u32 x in
             check_bounds b (b + size) ;;; ret b) h2
        | _ => Thr E_bad_callback_return h2
        end
    end.

Definition abort : M host unit := throw E_guest_abort.

Definition eosio_assert_message (test : bool) : M host unit :=
  if test then ret tt else throw E_guest_abort.

Definition get_database_status (cb_alloc_data cb_alloc : Z) : M host unit :=
  data <- alloc cb_alloc_data cb_alloc (u32 (Z.of_nat (List.length database_status))) ;;
  write_mem data database_status.

Definition get_input_data (cb_alloc_data cb_alloc : Z) : M host unit :=
  data <- alloc cb_alloc_data cb_alloc (u32 (Z.of_nat (List.length request_rest))) ;;
  write_mem data request_rest.

Definition set_output_data (b e : Z) : M host unit :=
  check_bounds b e ;;;
  bs <- read_mem b e ;;
  (fun h => Ret tt (set_reply bs h)).

Definition query_database (req_begin req_end cb_alloc_data cb_alloc : Z) : M host unit :=
  check_bounds req_begin req_end ;;;
  req <- read_mem req_begin req_end ;;
  let result := session_query_database req in
  data <- alloc cb_alloc_data cb_alloc (u32 (Z.of_nat (List.length result))) ;;
  write_mem data result.

Definition print_range (b e : Z) : M host unit :=
  check_bounds b e ;;;
  if console then (bs <- read_mem b e ;; (fun h => Ret tt (add_console bs h)))
  else ret tt.

End Callbacks.

End Host.

(* ------------------------------------------------------------------ *)
(** ** wasm_ql.cpp: the query driver *)

Module Driver.
Import Wire.

(** [database_status]/[fill_status]; ids are [checksum256] as 32 raw bytes. *)
Record fill_status := mk_fill {
  head : Z; head_id : list Z; irreversible : Z; irreversible_id : list Z; first : Z
}.

(** A [query_session]: a read-only snapshot of the history store. *)
Record session := mk_session {
  get_fill_status : fill_status;
  get_block_id : Z -> option (list Z);
  session_query_database : list Z -> Z -> list Z
}.

(** How a guest run can fail: the errors raised while it runs. *)
Inductive guest_error :=
| GE_abort | GE_trap | GE_bad_memory | GE_bad_callback_return.

Definition guest_exc (g : guest_error) : exc :=
  match g with
  | GE_abort => E_guest_abort
  | GE_trap => E_guest_trap
  | GE_bad_memory => E_bad_memory
  | GE_bad_callback_return => E_bad_callback_return
  end.

(** What one run of a guest module does, as seen by the driver: it
    fails, or it returns after calling [set_output_data] with the listed
    byte ranges, in order. *)
Inductive guest_result :=
| G_fail (e : guest_error)
| G_ok (outputs : list (list Z)).

(** Events of one thread, latest first: a guest module run (its short
    name and the session it was run against), and a fork check. *)
Inductive event :=
| Ev_run (short_name : Z) (s : session)
| Ev_fork_check.

Record thread_state := mk_ts {
  ts_session : session;          (* thread_state.query_session *)
  ts_session_open : bool;        (* false once the scoped exit reset it *)
  ts_fill : fill_status;         (* thread_state.fill_status *)
  ts_database_status : list Z;   (* thread_state.database_status *)
  ts_request : list Z;           (* thread_state.request, pos..end *)
  ts_reply : list Z;             (* thread_state.reply *)
  ts_log : list event
}.

Definition set_session (s : session) (ts : thread_state) : thread_state :=
  mk_ts s true (ts_fill ts) (ts_database_status ts) (ts_request ts) (ts_reply ts) (ts_log ts).
Definition release (ts : thread_state) : thread_state :=
  mk_ts (ts_session ts) false (ts_fill ts) (ts_database_status ts) (ts_request ts) (ts_reply ts) (ts_log ts).
Definition set_fill (f : fill_status) (ts : thread_state) : thread_state :=
  mk_ts (ts_session ts) (ts_session_open ts) f (ts_database_status ts) (ts_request ts) (ts_reply ts) (ts_log ts).
Definition set_database_status (d : list Z) (ts : thread_state) : thread_state :=
  mk_ts (ts_session ts) (ts_session_open ts) (ts_fill ts) d (ts_request ts) (ts_reply ts) (ts_log ts).
Definition set_request (r : list Z) (ts : thread_state) : thread_state :=
  mk_ts (ts_session ts) (ts_session_open ts) (ts_fill ts) (ts_database_status ts) r (ts_reply ts) (ts_log ts).
Definition set_reply (r : list Z) (ts : thread_state) : thread_state :=
  mk_ts (ts_session ts) (ts_session_open ts) (ts_fill ts) (ts_database_status ts) (ts_request ts) r (ts_log ts).
Definition log_event (e : event) (ts : thread_state) : thread_state :=
  mk_ts (ts_session ts) (ts_session_open ts) (ts_fill ts) (ts_database_status ts) (ts_request ts) (ts_reply ts) (e :: ts_log ts).

Fixpoint bytes_eqb (a b : list Z) : bool :=
  match a, b with
  | [], [] => true
  | x :: a', y :: b' => (x =? y) && bytes_eqb a' b'
  | _, _ => false
  end.

(** [fill_context_data]. *)
Definition fill_context_data (ts : thread_state) : thread_state :=
  let f := ts_fill ts in
  set_database_status
    (u32_bytes (head f) ++ head_id f ++ u32_bytes (irreversible f)
     ++ irreversible_id f ++ u32_bytes (first f)) ts.

(** [did_fork]. *)
Definition did_fork : M thread_state bool :=
  fun ts =>
    let ts' := log_event Ev_fork_check ts in
    match get_block_id (ts_session ts) (head (ts_fill ts)) with
    | None => Ret true ts'                                   (* prev head not found *)
    | Some id => Ret (negb (bytes_eqb id (head_id (ts_fill ts)))) ts'  (* head_id changed *)
    end.

(** [thread_state.reply.assign(begin, end)] for each [set_output_data]. *)
Fixpoint assign_outputs (outputs : list (list Z)) (reply : list Z) : list Z :=
  match outputs with
  | [] => reply
  | o :: rest => assign_outputs rest o
  end.

Section WithStore.

(** [shared->db_iface->create_query_session()]: the [n]-th session this
    thread opens. *)
Variable create_query_session : nat -> session.
(** The guest module [<short_name>-server.wasm], run by [initialize] then
    [run_query] on the database status and input data it can fetch. *)
Variable guest : Z -> session -> list Z -> list Z -> guest_result.

(** [run_query]. *)
Definition run_query (short_name : Z) : M thread_state unit :=
  fun ts =>
    let ts1 := log_event (Ev_run short_name (ts_session ts)) ts in
    match guest short_name (ts_session ts) (ts_database_status ts) (ts_request ts) with
    | G_fail e => Thr (guest_exc e) ts1
    | G_ok outputs => Ret tt (set_reply (assign_outputs outputs (ts_reply ts)) ts1)
    end.

Section Retry.
Variable A : Type.
(** The lambda [f]; it captures [thread_state] and, through [A], the
    caller's locals by reference.  The store's session counter is outside
    its reach. *)
Variable f : M (thread_state * A) bool.

(** [retry_loop]: each iteration opens a session, reads the fill status,
    rejects an empty database, fills the context data and runs [f]; the
    [scoped_exit] releases the session on every path.  [fuel] bounds the
    recursion; the counter [num_tries] ends the loop first. *)
Fixpoint retry_go (fuel num_tries : nat) : M (nat * (thread_state * A)) unit :=
  fun '(created, (ts, a)) =>
    match fuel with
    | O => Thr E_retry_fuel (created, (ts, a))
    | S fuel' =>
        let sess := create_query_session created in
        let created' := S created in
        let ts1 := set_fill (get_fill_status sess) (set_session sess ts) in
        if head (ts_fill ts1) =? 0 then Thr E_empty_database (created', (release ts1, a))
        else
          match f (fill_context_data ts1, a) with
          | Ret true (ts2, a2) => Ret tt (created', (release ts2, a2))
          | Ret false (ts2, a2) =>
              if (4 <=? S num_tries)%nat
              then Thr E_too_many_forks (created', (release ts2, a2))
              else retry_go fuel' (S num_tries) (created', (release ts2, a2))
          | Thr e (ts2, a2) => Thr e (created', (release ts2, a2))
          | Oob (ts2, a2) => Oob (created', (release ts2, a2))
          end
    end.

Definition retry_loop : M (nat * (thread_state * A)) unit := retry_go 4 0.

End Retry.

(** The [for] loop of [query]'s lambda, from the current sub-request on;
    the pair carries [thread_state] and the local [result]. *)
Fixpoint sub_requests (n : nat) (request_bin : list Z) : M (thread_state * list Z) bool :=
  fun '(ts, result) =>
    match n with
    | O => Ret true (ts, result)
    | S n' =>
        match read_input_buffer request_bin with
        | None => Thr E_bad_stream (ts, result)
        | Some (req, request_bin') =>
            match read_u64 req with
            | None => Thr E_bad_stream (set_request req ts, result)
            | Some (ns_name, req1) =>
                if negb (ns_name =? local_n)
                then Thr E_unknown_namespace (set_request req1 ts, result)
                else
                  match read_u64 req1 with
                  | None => Thr E_bad_stream (set_request req1 ts, result)
                  | Some (short_name, req2) =>
                      match run_query short_name (set_request req2 ts) with
                      | Thr e ts' => Thr e (ts', result)
                      | Oob ts' => Oob (ts', result)
                      | Ret _ ts' =>
                          match did_fork ts' with
                          | Ret true ts'' => Ret false (ts'', result)
                          | Ret false ts'' =>
                              sub_requests n' request_bin'
                                (ts'', result ++ push_varuint32 (Z.of_nat (List.length (ts_reply ts'')))
                                              ++ ts_reply ts'')
                          | Thr e ts'' => Thr e (ts'', result)
                          | Oob ts'' => Oob (ts'', result)
                          end
                      end
                  end
            end
        end
    end.

(** [query]'s lambda: decode the count, [result.clear()], push the count,
    run the sub-requests. *)
Definition query_attempt (request : list Z) : M (thread_state * list Z) bool :=
  fun '(ts, result) =>
    match read_varuint32 request with
    | None => Thr E_bad_stream (ts, result)
    | Some (num_requests, request_bin) =>
        sub_requests (Z.to_nat num_requests) request_bin (ts, [] ++ push_varuint32 num_requests)
    end.

(** [query]; the state pairs the store's session counter with the thread. *)
Definition query (request : list Z) : M (nat * thread_state) (list Z) :=
  fun '(created, ts) =>
    match retry_loop (list Z) (query_attempt request) (created, (ts, [])) with
    | Ret _ (c, (ts', result)) => Ret result (c, ts')
    | Thr e (c, (ts', _)) => Thr e (c, ts')
    | Oob (c, (ts', _)) => Oob (c, ts')
    end.

(** [legacy_query]'s lambda. *)
Definition legacy_attempt : M (thread_state * unit) bool :=
  fun '(ts, u) =>
    match run_query legacy_n ts with
    | Ret _ ts1 =>
        match did_fork ts1 with
        | Ret forked ts2 => Ret (negb forked) (ts2, u)
        | Thr e ts2 => Thr e (ts2, u)
        | Oob ts2 => Oob (ts2, u)
        end
    | Thr e ts1 => Thr e (ts1, u)
    | Oob ts1 => Oob (ts1, u)
    end.

(** [legacy_query]: the reply is [thread_state.reply] itself. *)
Definition legacy_query (target request : list Z) : M (nat * thread_state) (list Z) :=
  fun '(created, ts) =>
    let req := bytes_bin target ++ bytes_bin request in
    match retry_loop unit legacy_attempt (created, (set_request req ts, tt)) with
    | Ret _ (c, (ts', _)) => Ret (ts_reply ts') (c, ts')
    | Thr e (c, (ts', _)) => Thr e (c, ts')
    | Oob (c, (ts', _)) => Oob (c, ts')
    end.

End WithStore.

End Driver.

(* ------------------------------------------------------------------ *)
(** ** The callback-allocation protocol in the spec's words, and concrete
    guest behaviours used as inputs below *)

Module HostSpec.
Import Host.

(** The callback-allocation protocol as the spec states it: call the
    guest's [cb_alloc] with [(cb_alloc_data, size)]; a missing or non-i32
    result is fatal; otherwise the payload lands at the returned offset.
    [Oob] marks an offset whose range leaves the memory: the host writes
    there without a check (see C1). *)
Definition alloc_protocol_outcome
  (exec : list Z -> Z -> Z -> Z -> option (option wasm_value * list Z))
  (payload : list Z) (cb_alloc_data cb_alloc : Z) (h : host) : outcome host unit :=
  let size := Z.of_nat (List.length payload) in
  let h1 := log_table_call (cb_alloc, cb_alloc_data, size) h in
  match exec (h_mem h) cb_alloc cb_alloc_data size with
  | None => Thr E_guest_trap h1
  | Some (Some (I32 x), mem') =>
      if u32 x + size <=? Z.of_nat (List.length mem')
      then Ret tt (set_mem (firstn (Z.to_nat (u32 x)) mem' ++ payload
                            ++ skipn (Z.to_nat (u32 x) + List.length payload) mem') h1)
      else Oob (set_mem mem' h1)
  | Some (_, mem') => Thr E_bad_callback_return (set_mem mem' h1)
  end.

(** A guest memory of one 64 KiB page. *)
Definition one_page : list Z := repeat 0 (Z.to_nat 65536).
Definition page_host : host := mk_host one_page [] [] [].

(** A [cb_alloc] that answers with offset 65530 whatever the size. *)
Definition cb_alloc_near_end (mem : list Z) (idx data size : Z) : option (option wasm_value * list Z) :=
  Some (Some (I32 65530), mem).

(** A [cb_alloc] that answers with offset 4. *)
Definition cb_alloc_at_4 (mem : list Z) (idx data size : Z) : option (option wasm_value * list Z) :=
  Some (Some (I32 4), mem).

Definition small_host : host := mk_host (repeat 0 16) [] [] [].

End HostSpec.

(* ------------------------------------------------------------------ *)
(** ** Concrete stores, guests and requests for the driver *)

Module DriverSpec.
Import Wire Driver.

(** [native_to_bin] of a [uint64_t] (a [name]): eight little-endian bytes. *)
Definition u64_bytes (x : Z) : list Z :=
  map (fun i => Z.land (Z.shiftr x (8 * i)) 255) [0; 1; 2; 3; 4; 5; 6; 7].

(** One sub-request [(namespace, short_name, payload)] as an
    [input_buffer], and the top-level request framing. *)
Definition sub_request (ns short_name : Z) (payload : list Z) : list Z :=
  bytes_bin (u64_bytes ns ++ u64_bytes short_name ++ payload).

Definition request_of (subs : list (list Z)) : list Z :=
  push_varuint32 (Z.of_nat (List.length subs)) ++ List.concat subs.

(** The top-level reply framing of the spec: the count, then each blob
    with its length. *)
Definition reply_of (blobs : list (list Z)) : list Z :=
  push_varuint32 (Z.of_nat (List.length blobs))
  ++ List.concat (map (fun b => push_varuint32 (Z.of_nat (List.length b)) ++ b) blobs).

Definition id_a : list Z := repeat 17 32.
Definition id_b : list Z := repeat 34 32.

Definition fill_at (h : Z) (id : list Z) : fill_status := mk_fill h id h id 1.

(** A snapshot whose head block still has the captured id. *)
Definition stable_session (h : Z) (id : list Z) : session :=
  mk_session (fill_at h id) (fun n => if n =? h then Some id else None) (fun _ _ => []).

(** A snapshot whose head block is replaced by [id'] before the check. *)
Definition forked_session (h : Z) (id id' : list Z) : session :=
  mk_session (fill_at h id) (fun n => if n =? h then Some id' else None) (fun _ _ => []).

(** An empty history store. *)
Definition empty_session : session :=
  mk_session (fill_at 0 []) (fun _ => None) (fun _ _ => []).

(** The first session sees head 100 and then a fork; later ones see a
    stable head 101. *)
Definition fork_then_stable (k : nat) : session :=
  match k with
  | O => forked_session 100 id_a id_b
  | S _ => stable_session 101 id_b
  end.

Definition always_stable (k : nat) : session := stable_session 100 id_a.
Definition always_forked (k : nat) : session := forked_session 100 id_a id_b.
Definition always_empty (k : nat) : session := empty_session.

Definition name_aa : Z := string_to_name "aa".
Definition name_bb : Z := string_to_name "bb".

(** Guest modules: [aa] writes the head number it saw when that head is
    100 and writes nothing otherwise; [bb] always writes [2]; the legacy
    module behaves like [aa]. *)
Definition guest_head_echo (short_name : Z) (s : session) (dbs input : list Z) : guest_result :=
  if (short_name =? name_aa) || (short_name =? legacy_n) then
    if head (get_fill_status s) =? 100 then G_ok [[100]] else G_ok []
  else if short_name =? name_bb then G_ok [[2]]
  else G_fail GE_trap.

(** Guest modules: [aa] writes [7]; [bb] never calls [set_output_data]. *)
Definition guest_silent_bb (short_name : Z) (s : session) (dbs input : list Z) : guest_result :=
  if short_name =? name_aa then G_ok [[7]]
  else if short_name =? name_bb then G_ok []
  else G_fail GE_trap.

Definition ts0 : thread_state := mk_ts empty_session false (fill_at 0 []) [] [] [] [].

Definition req_aa_bb : list Z :=
  request_of [sub_request local_n name_aa []; sub_request local_n name_bb []].

Definition req_empty : list Z := request_of [].

(** The store's session counter after a run that started at [created]:
    each attempt opens exactly one session, so [c - created] counts the
    attempts.  [retry_bound created n o]: at least one and at most [n]
    attempts, the recursion never ran dry, and [E_too_many_forks] comes
    after exactly [n] attempts. *)
Definition retry_bound {S A : Type} (created n : nat) (o : outcome (nat * S) A) : Prop :=
  match o with
  | Ret _ (c, _) => (created < c <= created + n)%nat
  | Thr e (c, _) =>
      (created < c <= created + n)%nat /\ e <> E_retry_fuel /\
      (e = E_too_many_forks -> c = (created + n)%nat)
  | Oob (c, _) => (created < c <= created + n)%nat
  end.

(** Errors only the retry loop itself raises. *)
Definition loop_exc (e : exc) : Prop := e = E_too_many_forks \/ e = E_retry_fuel.

Definition attempt_plain {S : Type} (f : M S bool) : Prop :=
  forall s e s', f s = Thr e s' -> ~ loop_exc e.

End DriverSpec.

(* ------------------------------------------------------------------ *)
(** ** database.hpp: [for_each_query_result], [for_each_contract_row] *)

Module Rows.
Import Wire.

(** [contract_row]; [value] is the row's [datastream] over its bytes. *)
Record contract_row := mk_contract_row {
  block_index : Z; present : bool; code : Z; scope : Z; table : Z;
  primary_key : Z; payer : Z; value : list Z
}.

(** The guest's [datastream >> unsigned_int] (eosio): seven bits per
    byte, each group shifted as a [uint32_t], until a byte without the
    high bit or until [by] reaches 32; the value is cast to [uint32_t].
    [ds.get] past the end fails its [eosio::check], which aborts. *)
Fixpoint read_unsigned_int_aux (by_ v : Z) (bin : list Z) : option (Z * list Z) :=
  match bin with
  | [] => None
  | b :: rest =>
      let v' := Z.lor v (u32 (Z.shiftl (Z.land b 127) by_)) in
      if Z.testbit b 7 && (by_ + 7 <? 32) then read_unsigned_int_aux (by_ + 7) v' rest
      else Some (u32 v', rest)
  end.

Definition read_unsigned_int (bin : list Z) : option (Z * list Z) :=
  read_unsigned_int_aux 0 0 bin.

(** [ds >> row] into a [datastream<const char*>]: an [unsigned_int]
    length, then a view of that many bytes, which [ds] skips; skipping
    past the end fails the datastream's check. *)
Definition read_row (ds : list Z) : option (list Z * list Z) :=
  match read_unsigned_int ds with
  | None => None
  | Some (len, rest) =>
      if (Z.to_nat len <=? List.length rest)%nat
      then Some (firstn (Z.to_nat len) rest, skipn (Z.to_nat len) rest)
      else None
  end.

(** [datastream::remaining() != 0]. *)
Definition remaining_nonzero (ds : list Z) : bool :=
  match ds with [] => false | _ => true end.

Section ForEach.

(** The guest's callback runs in a state [St] of its own (what its lambda
    captures); a failed [datastream] read aborts the guest. *)
Variable St : Type.

Section QueryResult.
Variable R : Type.
(** [row >> r]: unpack the row type from one row's bytes. *)
Variable unpack_R : list Z -> option R.
Variable g : R -> M St bool.

(** The [for] loop of [for_each_query_result] from the current row on. *)
Fixpoint for_each_rows (n : nat) (ds : list Z) : M St bool :=
  match n with
  | O => ret true
  | S n' =>
      match read_row ds with                        (* ds >> row *)
      | None => throw E_guest_abort
      | Some (row, ds') =>
          match unpack_R row with                    (* row >> r *)
          | None => throw E_guest_abort
          | Some r =>
              b <- g r ;;
              if negb b then ret false else for_each_rows n' ds'
          end
      end
  end.

Definition for_each_query_result (bytes : list Z) : M St bool :=
  match read_unsigned_int bytes with                 (* ds >> size *)
  | None => throw E_guest_abort
  | Some (size, ds) => for_each_rows (Z.to_nat size) ds
  end.

End QueryResult.

Variable T : Type.
Variable unpack_contract_row : list Z -> option contract_row.
(** [row.value >> p] for the contract's data type [T]. *)
Variable unpack_T : list Z -> option T.
(** [f(row, data)]: [None] is [nullptr], [Some p] a pointer to [p]. *)
Variable f : contract_row -> option T -> M St bool.

(** The lambda [for_each_contract_row] hands to [for_each_query_result]. *)
Definition contract_row_lambda (row : contract_row) : M St bool :=
  if present row && remaining_nonzero (value row) then
    match unpack_T (value row) with
    | None => throw E_guest_abort
    | Some p => b <- f row (Some p) ;; if negb b then ret false else ret true
    end
  else
    b <- f row None ;; if negb b then ret false else ret true.

Definition for_each_contract_row (bytes : list Z) : M St bool :=
  for_each_query_result contract_row unpack_contract_row contract_row_lambda bytes.

End ForEach.

(** The rows' blobs a result holds, read with abieos's [varuint32] and
    [input_buffer] readers (the form [query] writes): a count, then that
    many length-prefixed blobs. *)
Fixpoint read_blobs (n : nat) (ds : list Z) : option (list (list Z)) :=
  match n with
  | O => Some []
  | S n' =>
      match read_input_buffer ds with
      | None => None
      | Some (b, ds') => option_map (cons b) (read_blobs n' ds')
      end
  end.

Definition query_result_blobs (bytes : list Z) : option (list (list Z)) :=
  match read_varuint32 bytes with
  | None => None
  | Some (size, ds) => read_blobs (Z.to_nat size) ds
  end.

(** The claim's reading of [for_each_contract_row] on decoded rows: for
    each row in order, pass [nullptr] when the row is not present or its
    value is empty, else the unpacked value (a value that does not unpack
    aborts); stop with [false] at the first [false]. *)
Fixpoint contract_rows_spec {St T : Type} (unpack_T : list Z -> option T)
  (f : contract_row -> option T -> M St bool) (rows : list contract_row) : M St bool :=
  match rows with
  | [] => ret true
  | r :: rest =>
      let pass arg := (b <- f r arg ;; if b then contract_rows_spec unpack_T f rest else ret false) in
      if negb (present r) || negb (remaining_nonzero (value r)) then pass None
      else match unpack_T (value r) with
           | None => throw E_guest_abort
           | Some p => pass (Some p)
           end
  end.

End Rows.

(* ------------------------------------------------------------------ *)
(** ** Concrete rows and keys used as inputs below *)

Module RowsSpec.
Import Wire Rows.

(** A row blob [[p; v]]: present iff [p = 1], value [[v]] or empty when
    [v = 0]. *)
Definition toy_unpack_row (b : list Z) : option contract_row :=
  match b with
  | [p; v] => Some (mk_contract_row 1 (p =? 1) 0 0 0 0 0 (if v =? 0 then [] else [v]))
  | _ => None
  end.

Definition toy_unpack_T (v : list Z) : option Z :=
  match v with [x] => Some x | _ => None end.

(** Records what it was passed; refuses the value 9. *)
Definition toy_f (r : contract_row) (arg : option Z) : M (list (option Z)) bool :=
  fun st => Ret (match arg with Some x => negb (x =? 9) | None => true end) (arg :: st).

Definition toy_blobs : list (list Z) := [[1; 5]; [0; 5]; [1; 0]; [1; 9]; [1; 7]].
Definition toy_bytes : list Z :=
  push_varuint32 5 ++ List.concat (map bytes_bin toy_blobs).
Definition toy_rows : list contract_row :=
  [mk_contract_row 1 true 0 0 0 0 0 [5]; mk_contract_row 1 false 0 0 0 0 0 [5];
   mk_contract_row 1 true 0 0 0 0 0 []; mk_contract_row 1 true 0 0 0 0 0 [9];
   mk_contract_row 1 true 0 0 0 0 0 [7]].

End RowsSpec.

Module KeySpec.
Import Key.

Definition key_mid : aet_key :=
  mk_aet_key (mk_name 5) (mk_name 6) (mk_name 7) 8 (mk_checksum 9 (2 ^ 128 - 1)) (2 ^ 32 - 1).

End KeySpec.

(* ------------------------------------------------------------------ *)
(** ** The guest side of the wire formats (database.hpp) *)

Module Guest.
Import Wire Driver.

(** The serialized form of [std::vector<std::vector<char>>]: a
    [varuint32] count, then each inner vector with its length.  A
    [query_database] result has this form. *)
Definition blobs_bin (bs : list (list Z)) : list Z :=
  push_varuint32 (Z.of_nat (List.length bs)) ++ List.concat (map bytes_bin bs).

(** [datastream >> uint32_t]: four little-endian bytes; a short stream
    fails the datastream's read check. *)
Definition read_u32 (bin : list Z) : option (Z * list Z) :=
  if (4 <=? List.length bin)%nat then Some (le_value (firstn 4 bin), skipn 4 bin) else None.

(** [datastream >> checksum256]: its 32 bytes, kept as the byte array
    ([extract_as_byte_array]). *)
Definition read_checksum256 (bin : list Z) : option (list Z * list Z) :=
  if (32 <=? List.length bin)%nat then Some (firstn 32 bin, skipn 32 bin) else None.

(** [struct database_status]. *)
Record database_status := mk_database_status {
  db_head : Z; db_head_id : list Z; db_irreversible : Z; db_irreversible_id : list Z;
  db_first : Z
}.

(** [ds >> result] in [get_database_status()], member by member in
    [for_each_member] order. *)
Definition unpack_database_status (bin : list Z) : option database_status :=
  match read_u32 bin with None => None | Some (h, bin1) =>
  match read_checksum256 bin1 with None => None | Some (hid, bin2) =>
  match read_u32 bin2 with None => None | Some (irr, bin3) =>
  match read_checksum256 bin3 with None => None | Some (iid, bin4) =>
  match read_u32 bin4 with None => None | Some (fst, _) =>
    Some (mk_database_status h hid irr iid fst)
  end end end end end.

(** Calling [g] on each row in order until one returns [false]. *)
Fixpoint visit_rows {St R : Type} (g : R -> M St bool) (rows : list R) : M St bool :=
  match rows with
  | [] => ret true
  | r :: rest => b <- g r ;; if b then visit_rows g rest else ret false
  end.

(** The state an outcome ends in, on every path. *)
Definition final_state {S A : Type} (o : outcome S A) : S :=
  match o with Ret _ s => s | Thr _ s => s | Oob s => s end.

(** The events one committed attempt logs for sub-requests with the
    short names [names], all against session [s], latest first: each
    guest run is followed by a fork check. *)
Definition run_events (s : session) (names : list Z) : list event :=
  List.concat (map (fun nm => [Ev_fork_check; Ev_run nm s]) (rev names)).

End Guest.

Module GuestSpec.
Import Wire Driver DriverSpec Key.


(** A request whose count byte announces a continuation that never comes. *)
Definition req_truncated : list Z := [128].

(** One sub-request in namespace [aa] instead of [local]. *)
Definition req_foreign : list Z := request_of [sub_request name_aa name_aa []].


Definition key_max : aet_key :=
  mk_aet_key (mk_name (2 ^ 64 - 1)) (mk_name (2 ^ 64 - 1)) (mk_name (2 ^ 64 - 1))
    (2 ^ 32 - 1) (mk_checksum (2 ^ 128 - 1) (2 ^ 128 - 1)) (2 ^ 32 - 1).

Definition key_other : aet_key :=
  mk_aet_key (mk_name 5) (mk_name 6) (mk_name 7) 9 (mk_checksum 0 0) 0.


(** Row fixtures: a blob is its own row; [log_blob] records each row and
    stops at one that starts with [0]. *)
Definition unpack_blob (b : list Z) : option (list Z) := Some b.

Definition log_blob (b : list Z) : M (list (list Z)) bool :=
  fun st => Ret (match b with 0 :: _ => false | _ => true end) (b :: st).

End GuestSpec.

(* ------------------------------------------------------------------ *)
(** ** Where a host payload lands in guest memory *)

Module HostMem.
Import Host.

(** After the call, memory has its old size, holds [payload] at [off],
    and is byte for byte [mem0] everywhere else. *)
Definition landed (mem0 : list Z) (off : Z) (payload : list Z) (h' : host) : Prop :=
  List.length (h_mem h') = List.length mem0 /\
  read_mem off (off + Z.of_nat (List.length payload)) h' = Ret payload h' /\
  firstn (Z.to_nat off) (h_mem h') = firstn (Z.to_nat off) mem0 /\
  skipn (Z.to_nat off + List.length payload) (h_mem h')
  = skipn (Z.to_nat off + List.length payload) mem0.

End HostMem.

(* ================================================================== *)
(** * Proofs *)

Module KeyProofs.
Import Key.

Lemma wrap_succ_zero (w v : Z) :
  0 < w -> in_width w v -> (wrap w (v + 1) = 0 <-> v = 2 ^ w - 1).
Proof.
  unfold wrap, in_width; intros Hw Hv.
  assert (Hp : 0 < 2 ^ w) by lia.
  split; intro H.
  - destruct (Z.eq_dec (v + 1) (2 ^ w)) as [E|E]; [lia|].
    rewrite Z.mod_small in H; lia.
  - subst v. replace (2 ^ w - 1 + 1) with (2 ^ w) by lia.
    apply Z.mod_same; lia.
Qed.

Lemma wrap_succ_small (w v : Z) :
  in_width w v -> v <> 2 ^ w - 1 -> wrap w (v + 1) = v + 1.
Proof.
  unfold wrap, in_width; intros Hv Hne. apply Z.mod_small; lia.
Qed.

Lemma wrap_in_width (w x : Z) : 0 < w -> in_width w (wrap w x).
Proof.
  unfold wrap, in_width; intros Hw. apply Z.mod_pos_bound. lia.
Qed.

(** One scalar overload: wrap exactly at the maximum, strict increase
    otherwise. *)
Lemma increment_key_w_spec (w k : Z) :
  0 < w -> in_width w k ->
  let '(b, k') := increment_key_w w k in
  (b = true <-> k = 2 ^ w - 1) /\ (b = false -> k < k') /\ in_width w k'.
Proof.
  intros Hw Hk. unfold increment_key_w.
  pose proof (wrap_succ_zero w k Hw Hk) as Hz.
  split; [|split].
  - rewrite Z.eqb_eq. exact Hz.
  - intros Hb. apply Z.eqb_neq in Hb.
    rewrite wrap_succ_small; [lia | exact Hk | intro E; apply Hb, Hz, E].
  - apply wrap_in_width; exact Hw.
Qed.

(** The spec's carry chain: the flag is set exactly on the all-maximum
    key, and otherwise the successor is lexicographically larger. *)
Lemma succ_fields_spec (fs : list (Z * Z)) :
  fields_ok fs ->
  let '(b, fs') := succ_fields fs in
  map fst fs' = map fst fs /\
  (b = true <-> all_max fs) /\
  (b = false -> lex_lt (map snd fs) (map snd fs')).
Proof.
  induction fs as [|[w v] rest IH]; intros Hok.
  - simpl. split; [reflexivity|]. split; [split; intros; [constructor|reflexivity]|].
    intros H; discriminate H.
  - inversion Hok as [|x l Hx Hrest]; subst.
    destruct Hx as [Hw Hv].
    specialize (IH Hrest). simpl.
    destruct (succ_fields rest) as [carry rest'] eqn:Es.
    destruct IH as [Hfst [Hmax Hlt]].
    destruct carry.
    + pose proof (wrap_succ_zero w v Hw Hv) as Hz.
      split; [simpl; rewrite Hfst; reflexivity|]. split.
      * rewrite Z.eqb_eq, Hz. split.
        -- intros E. constructor; [exact E | apply Hmax; reflexivity].
        -- intros Hm. inversion Hm; assumption.
      * intros Hb. apply Z.eqb_neq in Hb. simpl. left.
        rewrite wrap_succ_small; [lia | exact Hv | intro E; apply Hb, Hz, E].
    + split; [simpl; rewrite Hfst; reflexivity|]. split.
      * split; [intros H; discriminate H|].
        intros Hm. inversion Hm; subst. apply Hmax. assumption.
      * intros _. simpl. right. split; [reflexivity|]. apply Hlt; reflexivity.
Qed.

Lemma increment_key_checksum_refines (c : checksum256) :
  let '(b, c') := increment_key_checksum c in
  succ_fields (cs_fields c) = (b, cs_fields c').
Proof.
  destruct c as [w0 w1].
  unfold increment_key_checksum, increment_key_u128, increment_key_w, cs_fields. simpl.
  destruct (wrap 128 (w1 + 1) =? 0); reflexivity.
Qed.

Lemma increment_key_aet_refines (k : aet_key) :
  let '(b, k') := increment_key_aet k in
  succ_fields (aet_fields k) = (b, aet_fields k').
Proof.
  destruct k as [[n] [rr] [acc] bi [w0 w1] ai].
  unfold increment_key_aet, increment_key_checksum, increment_key_name,
    increment_key_u32, increment_key_u64, increment_key_u128, increment_key_w,
    aet_fields, cs_fields. simpl.
  destruct (wrap 32 (ai + 1) =? 0); simpl; [|reflexivity].
  destruct (wrap 128 (w1 + 1) =? 0); simpl; [|reflexivity].
  destruct (wrap 128 (w0 + 1) =? 0); simpl; [|reflexivity].
  destruct (wrap 32 (bi + 1) =? 0); simpl; [|reflexivity].
  destruct (wrap 64 (acc + 1) =? 0); simpl; [|reflexivity].
  destruct (wrap 64 (rr + 1) =? 0); simpl; reflexivity.
Qed.

(** C5: for every [increment_key] overload, the successor carries from the
    last field towards the first (it is the spec's carry chain
    [succ_fields]), reports a wrap exactly on the maximal key, and
    otherwise yields a strictly larger key in the declared field order. *)
Theorem increment_key_carry_and_order :
  (forall w k, In w [8; 16; 32; 64; 128] -> in_width w k ->
     let '(b, k') := increment_key_w w k in
     (b = true <-> k = 2 ^ w - 1) /\ (b = false -> k < k')) /\
  (forall n, in_width 64 (name_value n) ->
     let '(b, n') := increment_key_name n in
     (b = true <-> name_value n = 2 ^ 64 - 1) /\
     (b = false -> name_value n < name_value n')) /\
  (forall c, fields_ok (cs_fields c) ->
     let '(b, c') := increment_key_checksum c in
     succ_fields (cs_fields c) = (b, cs_fields c') /\
     (b = true <-> all_max (cs_fields c)) /\ (b = false -> cs_lt c c')) /\
  (forall k, fields_ok (aet_fields k) ->
     let '(b, k') := increment_key_aet k in
     succ_fields (aet_fields k) = (b, aet_fields k') /\
     (b = true <-> all_max (aet_fields k)) /\ (b = false -> key_lt k k')).
Proof.
  split; [|split; [|split]].
  - intros w k Hin Hk.
    assert (Hw : 0 < w) by (simpl in Hin; lia).
    pose proof (increment_key_w_spec w k Hw Hk) as H.
    destruct (increment_key_w w k) as [b k']. tauto.
  - intros [v] Hv. simpl in Hv.
    pose proof (increment_key_w_spec 64 v ltac:(lia) Hv) as H.
    unfold increment_key_name, increment_key_u64, increment_key_w in *. simpl.
    destruct H as [H1 [H2 _]]. split; assumption.
  - intros c Hok.
    pose proof (increment_key_checksum_refines c) as R.
    pose proof (succ_fields_spec (cs_fields c) Hok) as S.
    destruct (increment_key_checksum c) as [b c'].
    rewrite R in S. destruct S as [_ [Hm Hl]].
    split; [exact R|]. split; [exact Hm|]. exact Hl.
  - intros k Hok.
    pose proof (increment_key_aet_refines k) as R.
    pose proof (succ_fields_spec (aet_fields k) Hok) as S.
    destruct (increment_key_aet k) as [b k'].
    rewrite R in S. destruct S as [_ [Hm Hl]].
    split; [exact R|]. split; [exact Hm|]. exact Hl.
Qed.


Lemma increment_key_carry_and_order_witness :
  fields_ok (aet_fields KeySpec.key_mid) /\
  (let '(b, k') := increment_key_aet KeySpec.key_mid in
   succ_fields (aet_fields KeySpec.key_mid) = (b, aet_fields k') /\
   (b = true <-> all_max (aet_fields KeySpec.key_mid)) /\ (b = false -> key_lt KeySpec.key_mid k')).
Proof.
  assert (H : fields_ok (aet_fields KeySpec.key_mid)).
  { unfold fields_ok, aet_fields, cs_fields, KeySpec.key_mid, in_width; simpl.
    repeat constructor; lia. }
  split; [exact H|].
  exact (proj2 (proj2 (proj2 increment_key_carry_and_order)) KeySpec.key_mid H).
Defined.

End KeyProofs.

Module HostProofs.
Import Host HostSpec.

(** [check_bounds] never looks at the memory size. *)
Lemma check_bounds_ordered (b e : Z) (h : host) :
  b <= e -> check_bounds b e h = Ret tt h.
Proof.
  intros H. unfold check_bounds. destruct (b >? e) eqn:E; [lia | reflexivity].
Qed.

Lemma u32_nonneg (x : Z) : 0 <= u32 x.
Proof. unfold u32, wrap. apply Z.mod_pos_bound. lia. Qed.

Lemma u32_small (x : Z) : 0 <= x < 2 ^ 32 -> u32 x = x.
Proof. intros H. unfold u32, wrap. apply Z.mod_small. exact H. Qed.

Lemma alloc_then_write exec payload cb_alloc_data cb_alloc h :
  Z.of_nat (List.length payload) < 2 ^ 32 ->
  (data <- alloc exec cb_alloc_data cb_alloc (u32 (Z.of_nat (List.length payload))) ;;
   write_mem data payload) h
  = alloc_protocol_outcome exec payload cb_alloc_data cb_alloc h.
Proof.
  intros Hsz. rewrite u32_small by lia.
  unfold bind, alloc, alloc_protocol_outcome.
  destruct (exec (h_mem h) cb_alloc cb_alloc_data (Z.of_nat (List.length payload)))
    as [[[[x|x|x|x]|] mem']|]; try reflexivity.
  pose proof (u32_nonneg x) as Hx.
  unfold check_bounds.
  destruct (u32 x >? u32 x + Z.of_nat (List.length payload)) eqn:Eb.
  { apply Z.gtb_lt in Eb. lia. }
  unfold ret, write_mem. simpl.
  destruct (0 <=? u32 x) eqn:E0; [|apply Z.leb_nle in E0; lia]. simpl.
  destruct (u32 x + Z.of_nat (List.length payload) <=? Z.of_nat (List.length mem')); reflexivity.
Qed.

(** C7: [get_database_status], [get_input_data] and [query_database] each
    call the guest's [cb_alloc] entry with [(cb_alloc_data, size)], fail
    with [E_bad_callback_return] when it returns nothing or a non-i32, and
    otherwise copy exactly the [size] payload bytes to the returned offset
    (the protocol [alloc_protocol_outcome]). *)
Theorem host_calls_follow_alloc_protocol exec dbs rest sq data idx h :
  (Z.of_nat (List.length dbs) < 2 ^ 32 ->
   get_database_status exec dbs data idx h = alloc_protocol_outcome exec dbs data idx h) /\
  (Z.of_nat (List.length rest) < 2 ^ 32 ->
   get_input_data exec rest data idx h = alloc_protocol_outcome exec rest data idx h) /\
  (forall rb re, 0 <= rb <= re -> re <= Z.of_nat (List.length (h_mem h)) ->
   let req := firstn (Z.to_nat (re - rb)) (skipn (Z.to_nat rb) (h_mem h)) in
   Z.of_nat (List.length (sq req)) < 2 ^ 32 ->
   query_database exec sq rb re data idx h = alloc_protocol_outcome exec (sq req) data idx h).
Proof.
  split; [|split].
  - intros Hs. unfold get_database_status. apply alloc_then_write; exact Hs.
  - intros Hs. unfold get_input_data. apply alloc_then_write; exact Hs.
  - intros rb re Hr Hm req Hs. unfold query_database.
    unfold bind at 1. rewrite check_bounds_ordered by lia.
    unfold bind at 1. unfold read_mem.
    destruct ((0 <=? rb) && (rb <=? re) && (re <=? Z.of_nat (List.length (h_mem h)))) eqn:E.
    + apply alloc_then_write. exact Hs.
    + exfalso. apply andb_false_iff in E as [E|E]; [apply andb_false_iff in E as [E|E]|];
        first [apply Z.leb_nle in E | apply Z.leb_nle in E]; lia.
Qed.

(** C1: a range that ends past the guest's memory passes [check_bounds];
    [set_output_data] then reads, and [get_database_status] writes, bytes
    outside the linear memory instead of failing with [E_bad_memory]. *)
Theorem host_range_past_memory_not_rejected :
  check_bounds 0 65552 page_host = Ret tt page_host /\
  set_output_data 0 65552 page_host = Oob page_host /\
  alloc cb_alloc_near_end 7 1 16 page_host
    = Ret 65530 (log_table_call (1, 7, 16) page_host) /\
  get_database_status cb_alloc_near_end (repeat 9 16) 7 1 page_host
    = Oob (log_table_call (1, 7, 16) page_host).
Proof.
  assert (Hl : Z.of_nat (List.length (h_mem page_host)) = 65536).
  { change (h_mem page_host) with one_page. unfold one_page.
    rewrite repeat_length. apply Z2Nat.id. lia. }
  generalize dependent page_host. intros [mem r c t] Hl. simpl in Hl.
  split; [|split; [|split]].
  - reflexivity.
  - unfold set_output_data, bind, check_bounds, ret, read_mem. cbn -[Z.to_nat firstn skipn].
    rewrite Hl. reflexivity.
  - reflexivity.
  - unfold get_database_status, bind, alloc, check_bounds, ret, write_mem,
      cb_alloc_near_end, set_mem, log_table_call. cbn -[Z.to_nat firstn skipn].
    rewrite Hl. reflexivity.
Qed.

Lemma host_calls_follow_alloc_protocol_witness :
  Z.of_nat (List.length [1; 2; 3]) < 2 ^ 32 /\
  get_database_status cb_alloc_at_4 [1; 2; 3] 0 1 small_host
    = alloc_protocol_outcome cb_alloc_at_4 [1; 2; 3] 0 1 small_host.
Proof.
  assert (H : Z.of_nat (List.length [1; 2; 3]) < 2 ^ 32) by (simpl; lia).
  split; [exact H|].
  exact (proj1 (host_calls_follow_alloc_protocol cb_alloc_at_4 [1; 2; 3] [] (fun _ => [])
                  0 1 small_host) H).
Defined.

End HostProofs.

Module DriverProofs.
Import Wire Driver DriverSpec.

Lemma bytes_eqb_true (a b : list Z) : bytes_eqb a b = true <-> a = b.
Proof.
  revert b; induction a as [|x a IH]; intros [|y b]; simpl;
    try (split; intros H; discriminate H || reflexivity).
  rewrite andb_true_iff, Z.eqb_eq, IH. split.
  - intros [-> ->]; reflexivity.
  - intros H; injection H as -> ->; split; reflexivity.
Qed.

(** [did_fork] reports a fork exactly when the captured head has no id in
    the session or an id other than the captured [head_id]. *)
Lemma did_fork_iff (ts : thread_state) :
  exists b, did_fork ts = Ret b (log_event Ev_fork_check ts) /\
  (b = true <->
   get_block_id (ts_session ts) (head (ts_fill ts)) = None \/
   exists id, get_block_id (ts_session ts) (head (ts_fill ts)) = Some id /\
              id <> head_id (ts_fill ts)).
Proof.
  unfold did_fork.
  destruct (get_block_id (ts_session ts) (head (ts_fill ts))) as [id|] eqn:E.
  - eexists. split; [reflexivity|]. rewrite negb_true_iff. split.
    + intros H. right. exists id. split; [reflexivity|].
      intros Heq. apply bytes_eqb_true in Heq. congruence.
    + intros [H|[id' [H Hne]]]; [discriminate H|].
      injection H as <-. destruct (bytes_eqb id (head_id (ts_fill ts))) eqn:B; [|reflexivity].
      apply bytes_eqb_true in B. contradiction.
  - eexists. split; [reflexivity|]. split; [intros _; left; reflexivity | intros _; reflexivity].
Qed.

(** The staged reply of an attempt: once the count is decoded, [query]'s
    lambda starts from an empty [result], whatever an earlier attempt
    left in it. *)
Lemma query_attempt_discards_staged guest request ts r1 r2 :
  read_varuint32 request <> None ->
  query_attempt guest request (ts, r1) = query_attempt guest request (ts, r2).
Proof.
  intros H. unfold query_attempt.
  destruct (read_varuint32 request) as [[n bin]|]; [reflexivity | contradiction].
Qed.

(** A committed run of the retry loop is one attempt of [f] that returned
    [true], on a freshly opened session. *)
Lemma retry_go_commit sessions A f fuel n created ts a c s' :
  retry_go sessions A f fuel n (created, (ts, a)) = Ret tt (c, s') ->
  exists k ts0 a0, (created <= k)%nat /\ c = S k /\
    let ts1 := set_fill (get_fill_status (sessions k)) (set_session (sessions k) ts0) in
    head (ts_fill ts1) <> 0 /\
    exists ts2, f (fill_context_data ts1, a0) = Ret true (ts2, snd s') /\ fst s' = release ts2.
Proof.
  revert n created ts a. induction fuel as [|fuel IH]; intros n created ts a H;
    simpl in H; [discriminate H|].
  destruct (head (get_fill_status (sessions created)) =? 0) eqn:Eh; [discriminate H|].
  destruct (f _) as [[|] [ts2 a2] | e [ts2 a2] | [ts2 a2]] eqn:Ef; try discriminate H.
  - injection H as <- <-. exists created, ts, a. split; [lia|]. split; [reflexivity|].
    simpl. split; [apply Z.eqb_neq; exact Eh|]. exists ts2. split; [exact Ef | reflexivity].
  - match type of H with context [if ?b then _ else _] => destruct b end;
      [discriminate H|].
    destruct (IH _ _ _ _ H) as [k [ts0 [a0 [Hk [Hc Rest]]]]].
    exists k, ts0, a0. split; [lia|]. split; [exact Hc | exact Rest].
Qed.

Lemma retry_go_bound sessions A f :
  attempt_plain f ->
  forall fuel n created s, (n + fuel = 4)%nat -> (0 < fuel)%nat ->
  retry_bound created fuel (retry_go sessions A f fuel n (created, s)).
Proof.
  intros Hf fuel. induction fuel as [|fuel IH]; intros n created [ts a] Hn Hpos; [lia|].
  cbn -[Nat.leb]. unfold retry_bound.
  destruct (head (get_fill_status (sessions created)) =? 0) eqn:Eh.
  { simpl. split; [lia|]. split; intros H; discriminate H. }
  destruct (f _) as [[|] [ts2 a2] | e [ts2 a2] | [ts2 a2]] eqn:Ef.
  - simpl. lia.
  - destruct (4 <=? S n)%nat eqn:E4.
    + apply Nat.leb_le in E4. simpl. split; [lia|]. split; [intros H; discriminate H|].
      intros _. lia.
    + apply Nat.leb_nle in E4.
      specialize (IH (S n) (S created) (release ts2, a2) ltac:(lia) ltac:(lia)).
      destruct (retry_go sessions A f fuel (S n) (S created, (release ts2, a2)))
        as [u [c s'] | e [c s'] | [c s']]; unfold retry_bound in IH |- *; [lia| |lia].
      destruct IH as [Hc [He Ht]]. split; [lia|]. split; [exact He|].
      intros Hte. specialize (Ht Hte). lia.
  - simpl. pose proof (Hf _ _ _ Ef) as Hne. unfold loop_exc in Hne.
    split; [lia|]. split; [intros ->; tauto | intros ->; tauto].
  - simpl. lia.
Qed.

Lemma run_query_plain guest short_name ts e ts' :
  run_query guest short_name ts = Thr e ts' -> ~ loop_exc e.
Proof.
  unfold run_query. destruct (guest _ _ _ _) as [g|outs]; intros H; [|discriminate H].
  injection H as <- _. unfold loop_exc. destruct g; simpl; intros [H|H]; discriminate H.
Qed.

Lemma did_fork_returns ts : exists b ts', did_fork ts = Ret b ts'.
Proof.
  unfold did_fork. destruct (get_block_id _ _); eexists; eexists; reflexivity.
Qed.

Lemma sub_requests_plain guest n : forall bin, attempt_plain (sub_requests guest n bin).
Proof.
  unfold attempt_plain, loop_exc.
  induction n as [|n IH]; intros bin [ts r] e s' H; simpl in H; [discriminate H|].
  destruct (read_input_buffer bin) as [[req bin']|];
    [|injection H as <- _; intros [E|E]; discriminate E].
  destruct (read_u64 req) as [[ns req1]|]; [|injection H as <- _; intros [E|E]; discriminate E].
  destruct (negb (ns =? local_n)); [injection H as <- _; intros [E|E]; discriminate E|].
  destruct (read_u64 req1) as [[sn req2]|]; [|injection H as <- _; intros [E|E]; discriminate E].
  destruct (run_query guest sn (set_request req2 ts)) as [u ts1 | e1 ts1 | ts1] eqn:Er;
    try discriminate H.
  - destruct (did_fork_returns ts1) as [b [ts2 Ed]]. rewrite Ed in H.
    destruct b; [discriminate H|]. exact (IH _ _ _ _ H).
  - injection H as <- _. exact (run_query_plain _ _ _ _ _ Er).
Qed.

Lemma query_attempt_plain guest request : attempt_plain (query_attempt guest request).
Proof.
  intros [ts r] e s' H. unfold query_attempt in H.
  destruct (read_varuint32 request) as [[n bin]|].
  - exact (sub_requests_plain guest _ bin _ _ _ H).
  - injection H as <- _. unfold loop_exc. intros [E|E]; discriminate E.
Qed.

Lemma legacy_attempt_plain guest : attempt_plain (legacy_attempt guest).
Proof.
  intros [ts u] e s' H. unfold legacy_attempt in H.
  destruct (run_query guest legacy_n ts) as [x ts1 | e1 ts1 | ts1] eqn:Er; try discriminate H.
  - destruct (did_fork_returns ts1) as [b [ts2 Ed]]. rewrite Ed in H. discriminate H.
  - injection H as <- _. exact (run_query_plain _ _ _ _ _ Er).
Qed.

Lemma retry_go_fork_step sessions A f fuel n created ts a ts2 a2 :
  let ts1 := set_fill (get_fill_status (sessions created)) (set_session (sessions created) ts) in
  head (ts_fill ts1) <> 0 ->
  f (fill_context_data ts1, a) = Ret false (ts2, a2) ->
  retry_go sessions A f (S fuel) n (created, (ts, a))
  = if (4 <=? S n)%nat then Thr E_too_many_forks (S created, (release ts2, a2))
    else retry_go sessions A f fuel (S n) (S created, (release ts2, a2)).
Proof.
  intros ts1 Hh Hf. simpl.
  apply Z.eqb_neq in Hh. simpl in Hh. rewrite Hh.
  unfold ts1 in Hf. rewrite Hf. reflexivity.
Qed.

Lemma retry_go_all_forks sessions A f :
  (forall s, exists s', f s = Ret false s') ->
  forall fuel n created ts a, (n <= 3)%nat -> (4 - n <= fuel)%nat ->
  (forall k, (created <= k < created + (4 - n))%nat -> head (get_fill_status (sessions k)) <> 0) ->
  exists s', retry_go sessions A f fuel n (created, (ts, a))
             = Thr E_too_many_forks ((created + (4 - n))%nat, s').
Proof.
  intros Hf fuel. induction fuel as [|fuel IH]; intros n created ts a Hn Hfuel Hh; [lia|].
  pose proof (Hh created ltac:(lia)) as H0.
  set (ts1 := set_fill (get_fill_status (sessions created)) (set_session (sessions created) ts)).
  destruct (Hf (fill_context_data ts1, a)) as [[ts2 a2] E].
  rewrite (retry_go_fork_step sessions A f fuel n created ts a ts2 a2 H0 E).
  destruct (4 <=? S n)%nat eqn:Eq.
  - apply Nat.leb_le in Eq. exists (release ts2, a2). f_equal. f_equal. lia.
  - apply Nat.leb_gt in Eq.
    destruct (IH (S n) (S created) (release ts2) a2 ltac:(lia) ltac:(lia)) as [s' Es].
    { intros k Hk. apply Hh. lia. }
    exists s'. rewrite Es. f_equal. f_equal. lia.
Qed.

(** C3: a request makes at most four attempts (one session each): the
    multi-request and the legacy drivers open between one and four
    sessions, [E_too_many_forks] is raised after exactly the fourth
    attempt and never earlier, and an attempt that returns [true] is
    committed at once without opening another session.  An attempt that
    detects a fork is retried on a new session while fewer than four
    attempts have run, and fails with [E_too_many_forks] when it is the
    fourth; so when every attempt forks, [retry_loop] fails with
    [E_too_many_forks] after exactly four sessions. *)
Theorem retry_at_most_four_attempts :
  (forall sessions guest request created ts,
     retry_bound created 4 (query sessions guest request (created, ts))) /\
  (forall sessions guest target request created ts,
     retry_bound created 4 (legacy_query sessions guest target request (created, ts))) /\
  (forall sessions A f fuel n created ts a ts2 a2,
     let ts1 := set_fill (get_fill_status (sessions created)) (set_session (sessions created) ts) in
     head (ts_fill ts1) <> 0 ->
     f (fill_context_data ts1, a) = Ret true (ts2, a2) ->
     retry_go sessions A f (S fuel) n (created, (ts, a)) = Ret tt (S created, (release ts2, a2))) /\
  (forall sessions A f fuel n created ts a ts2 a2,
     let ts1 := set_fill (get_fill_status (sessions created)) (set_session (sessions created) ts) in
     head (ts_fill ts1) <> 0 ->
     f (fill_context_data ts1, a) = Ret false (ts2, a2) ->
     retry_go sessions A f (S fuel) n (created, (ts, a))
     = if (4 <=? S n)%nat then Thr E_too_many_forks (S created, (release ts2, a2))
       else retry_go sessions A f fuel (S n) (S created, (release ts2, a2))) /\
  (forall sessions A f created ts a,
     (forall k, (created <= k < created + 4)%nat -> head (get_fill_status (sessions k)) <> 0) ->
     (forall s, exists s', f s = Ret false s') ->
     exists s', retry_loop sessions A f (created, (ts, a))
                = Thr E_too_many_forks ((created + 4)%nat, s')).
Proof.
  split; [|split; [|split; [|split]]].
  - intros sessions guest request created ts.
    pose proof (retry_go_bound sessions _ _ (query_attempt_plain guest request) 4 0 created
                  (ts, []) eq_refl ltac:(lia)) as B.
    unfold query, retry_loop.
    destruct (retry_go sessions _ _ 4 0 (created, (ts, [])))
      as [u [c [ts' r]] | e [c [ts' r]] | [c [ts' r]]]; exact B.
  - intros sessions guest target request created ts.
    pose proof (retry_go_bound sessions _ _ (legacy_attempt_plain guest) 4 0 created
                  (set_request (bytes_bin target ++ bytes_bin request) ts, tt) eq_refl ltac:(lia)) as B.
    unfold legacy_query, retry_loop.
    destruct (retry_go sessions _ _ 4 0 _)
      as [u [c [ts' r]] | e [c [ts' r]] | [c [ts' r]]]; exact B.
  - intros sessions A f fuel n created ts a ts2 a2 ts1 Hh Hf. simpl.
    apply Z.eqb_neq in Hh. simpl in Hh. rewrite Hh.
    unfold ts1 in Hf. rewrite Hf. reflexivity.
  - intros sessions A f fuel n created ts a ts2 a2 ts1 Hh Hf.
    exact (retry_go_fork_step sessions A f fuel n created ts a ts2 a2 Hh Hf).
  - intros sessions A f created ts a Hh Hf. unfold retry_loop.
    exact (retry_go_all_forks sessions A f Hf 4 0 created ts a ltac:(lia) ltac:(lia) Hh).
Qed.


Lemma retry_loop_empty_head sessions A f fuel n created ts a :
  head (get_fill_status (sessions created)) = 0 ->
  retry_go sessions A f (S fuel) n (created, (ts, a))
  = Thr E_empty_database
      (S created, (release (set_fill (get_fill_status (sessions created))
                                     (set_session (sessions created) ts)), a)).
Proof.
  intros H. cbn -[Nat.leb]. rewrite H. reflexivity.
Qed.

(** C6: an attempt whose fresh snapshot has [head = 0] fails with
    [E_empty_database] before [f] runs (the outcome does not depend on
    [f]); for [query] and [legacy_query] no guest module runs and no fork
    check happens (the thread's event log is unchanged). *)
Theorem empty_database_fails_before_guest :
  (forall sessions A f fuel n created ts a,
     head (get_fill_status (sessions created)) = 0 ->
     retry_go sessions A f (S fuel) n (created, (ts, a))
     = Thr E_empty_database
         (S created, (release (set_fill (get_fill_status (sessions created))
                                        (set_session (sessions created) ts)), a))) /\
  (forall sessions guest request created ts,
     head (get_fill_status (sessions created)) = 0 ->
     exists ts', query sessions guest request (created, ts) = Thr E_empty_database (S created, ts')
                 /\ ts_log ts' = ts_log ts) /\
  (forall sessions guest target request created ts,
     head (get_fill_status (sessions created)) = 0 ->
     exists ts', legacy_query sessions guest target request (created, ts)
                 = Thr E_empty_database (S created, ts') /\ ts_log ts' = ts_log ts).
Proof.
  split; [|split].
  - intros. apply retry_loop_empty_head. assumption.
  - intros sessions guest request created ts H.
    unfold query, retry_loop. rewrite retry_loop_empty_head by exact H.
    eexists. split; reflexivity.
  - intros sessions guest target request created ts H.
    unfold legacy_query, retry_loop. rewrite retry_loop_empty_head by exact H.
    eexists. split; reflexivity.
Qed.

(** Concrete runs of the commit branch and, on snapshots whose head is
    replaced before the check, of the fork branches: the fourth attempt of
    [query] detects the fork and fails with [E_too_many_forks], and an
    attempt that always reports a fork makes [retry_loop] fail after four
    sessions. *)
Lemma retry_at_most_four_attempts_witness :
  let ts1 := set_fill (get_fill_status (always_stable 0)) (set_session (always_stable 0) ts0) in
  let f := query_attempt guest_head_echo req_aa_bb in
  let tsf := set_fill (get_fill_status (always_forked 3)) (set_session (always_forked 3) ts0) in
  let o := f (fill_context_data tsf, []) in
  head (ts_fill ts1) <> 0 /\
  query_attempt guest_silent_bb req_empty (fill_context_data ts1, [])
    = Ret true (fill_context_data ts1, [] ++ push_varuint32 0) /\
  retry_go always_stable (list Z) (query_attempt guest_silent_bb req_empty) 4 0 (0%nat, (ts0, []))
    = Ret tt (1%nat, (release (fill_context_data ts1), [] ++ push_varuint32 0)) /\
  head (ts_fill tsf) <> 0 /\
  o = Ret false (fst (Guest.final_state o), snd (Guest.final_state o)) /\
  retry_go always_forked (list Z) f 1 3 (3%nat, (ts0, []))
  = Thr E_too_many_forks (4%nat, (release (fst (Guest.final_state o)), snd (Guest.final_state o))) /\
  (forall k, (0 <= k < 0 + 4)%nat -> head (get_fill_status (always_forked k)) <> 0) /\
  exists s', retry_loop always_forked (list Z) (fun s => Ret false s) (0%nat, (ts0, []))
             = Thr E_too_many_forks ((0 + 4)%nat, s').
Proof.
  intros ts1 f tsf o.
  assert (H1 : head (ts_fill ts1) <> 0) by (vm_compute; intros H; discriminate H).
  assert (H2 : query_attempt guest_silent_bb req_empty (fill_context_data ts1, [])
               = Ret true (fill_context_data ts1, [] ++ push_varuint32 0)) by reflexivity.
  assert (H3 : head (ts_fill tsf) <> 0) by (vm_compute; intros H; discriminate H).
  assert (H4 : o = Ret false (fst (Guest.final_state o), snd (Guest.final_state o)))
    by (vm_compute; reflexivity).
  assert (H5 : forall k, (0 <= k < 0 + 4)%nat -> head (get_fill_status (always_forked k)) <> 0)
    by (intros k _; vm_compute; intros H; discriminate H).
  assert (H6 : forall s : thread_state * list Z, exists s', Ret false s = Ret false s')
    by (intros s; exists s; reflexivity).
  split; [exact H1|]. split; [exact H2|]. split.
  { exact (proj1 (proj2 (proj2 retry_at_most_four_attempts)) always_stable (list Z)
             (query_attempt guest_silent_bb req_empty) 3%nat 0%nat 0%nat ts0 [] _ _ H1 H2). }
  split; [exact H3|]. split; [exact H4|]. split.
  { exact (proj1 (proj2 (proj2 (proj2 retry_at_most_four_attempts))) always_forked (list Z) f
             0%nat 3%nat 3%nat ts0 [] _ _ H3 H4). }
  split; [exact H5|].
  exact (proj2 (proj2 (proj2 (proj2 retry_at_most_four_attempts))) always_forked (list Z)
           (fun s => Ret false s) 0%nat ts0 [] H5 H6).
Defined.

Lemma empty_database_fails_before_guest_witness :
  head (get_fill_status (always_empty 0)) = 0 /\
  exists ts', query always_empty guest_silent_bb req_aa_bb (0%nat, ts0)
              = Thr E_empty_database (1%nat, ts') /\ ts_log ts' = ts_log ts0.
Proof.
  assert (H : head (get_fill_status (always_empty 0)) = 0) by reflexivity.
  split; [exact H|].
  exact (proj1 (proj2 empty_database_fails_before_guest) always_empty guest_silent_bb
           req_aa_bb 0%nat ts0 H).
Defined.

(** C10 (as stated): on an empty store a zero-sub-request request does
    not commit; it fails with [E_empty_database]. *)
Lemma query_zero_requests_empty_store :
  match query always_empty guest_silent_bb req_empty (0%nat, ts0) with
  | Thr e (c, _) => e = E_empty_database /\ c = 1%nat
  | _ => False
  end.
Proof. vm_compute. split; reflexivity. Qed.

(** C10 (amended): a request whose count is 0 makes exactly one attempt,
    runs no guest module and no fork check; it commits the one-byte reply
    [varuint32 0] when the snapshot's head is non-zero and fails with
    [E_empty_database] when it is zero. *)
Theorem query_zero_requests sessions guest request rest created ts :
  read_varuint32 request = Some (0, rest) ->
  (head (get_fill_status (sessions created)) <> 0 ->
   exists ts', query sessions guest request (created, ts) = Ret (push_varuint32 0) (S created, ts')
               /\ ts_log ts' = ts_log ts) /\
  (head (get_fill_status (sessions created)) = 0 ->
   exists ts', query sessions guest request (created, ts) = Thr E_empty_database (S created, ts')
               /\ ts_log ts' = ts_log ts).
Proof.
  intros Hreq. split.
  - intros Hh. apply Z.eqb_neq in Hh.
    unfold query, retry_loop. cbn -[Nat.leb read_varuint32 push_varuint32]. rewrite Hh.
    unfold query_attempt. rewrite Hreq. simpl.
    eexists. split; reflexivity.
  - intros Hh. unfold query, retry_loop. rewrite retry_loop_empty_head by exact Hh.
    eexists. split; reflexivity.
Qed.

Lemma query_zero_requests_witness :
  read_varuint32 req_empty = Some (0, []) /\
  head (get_fill_status (always_stable 0)) <> 0 /\
  exists ts', query always_stable guest_silent_bb req_empty (0%nat, ts0)
              = Ret (push_varuint32 0) (1%nat, ts') /\ ts_log ts' = ts_log ts0.
Proof.
  assert (H1 : read_varuint32 req_empty = Some (0, [])) by reflexivity.
  assert (H2 : head (get_fill_status (always_stable 0)) <> 0) by (vm_compute; intros H; discriminate H).
  split; [exact H1|]. split; [exact H2|].
  exact (proj1 (query_zero_requests always_stable guest_silent_bb req_empty [] 0%nat ts0 H1) H2).
Defined.

(** C2 (failing input): two sub-requests [aa], [bb].  The first session
    (head 100) forks after [aa] wrote [100]; the second (head 101) is
    stable and there [aa] writes nothing.  The committed reply still
    carries [100], produced against the discarded snapshot, because
    [thread_state.reply] is never reset. *)
Theorem query_commits_reply_of_forked_snapshot :
  (forall dbs input, guest_head_echo name_aa (fork_then_stable 0) dbs input = G_ok [[100]]) /\
  (forall dbs input, guest_head_echo name_aa (fork_then_stable 1) dbs input = G_ok []) /\
  get_block_id (fork_then_stable 0) 100 = Some id_b /\ id_b <> id_a /\
  match query fork_then_stable guest_head_echo req_aa_bb (0%nat, ts0) with
  | Ret r (c, _) => c = 2%nat /\ r = reply_of [[100]; [2]]
  | _ => False
  end.
Proof.
  split; [intros; reflexivity|]. split; [intros; reflexivity|].
  split; [reflexivity|]. split; [vm_compute; intros H; discriminate H|].
  vm_compute. split; reflexivity.
Qed.

(** C8 (failing input): one stable snapshot; [aa] writes [7] and [bb]
    never calls [set_output_data].  The reply's second blob is [aa]'s
    bytes again, not an empty blob. *)
Theorem query_reply_repeats_previous_output :
  (forall s dbs input, guest_silent_bb name_bb s dbs input = G_ok []) /\
  match query always_stable guest_silent_bb req_aa_bb (0%nat, ts0) with
  | Ret r (c, _) => c = 1%nat /\ r = reply_of [[7]; [7]] /\ r <> reply_of [[7]; []]
  | _ => False
  end.
Proof.
  split; [intros; reflexivity|].
  vm_compute. split; [reflexivity|]. split; [reflexivity|]. intros H; discriminate H.
Qed.

(** C4 (failing input), legacy path: the first session forks after the
    guest wrote [100]; in the second, stable, session the guest writes
    nothing; [legacy_query] returns the forked attempt's [100]. *)
Theorem legacy_query_returns_forked_reply :
  get_block_id (fork_then_stable 0) 100 = Some id_b /\ id_b <> id_a /\
  (forall dbs input, guest_head_echo legacy_n (fork_then_stable 1) dbs input = G_ok []) /\
  match legacy_query fork_then_stable guest_head_echo [] [] (0%nat, ts0) with
  | Ret r (c, _) => c = 2%nat /\ r = [100]
  | _ => False
  end.
Proof.
  split; [reflexivity|]. split; [vm_compute; intros H; discriminate H|].
  split; [intros; reflexivity|].
  vm_compute. split; reflexivity.
Qed.

End DriverProofs.

Module U32Facts.

Lemma lor_u32_range (a b : Z) :
  0 <= a < 2 ^ 32 -> 0 <= b < 2 ^ 32 -> 0 <= Z.lor a b < 2 ^ 32.
Proof.
  intros Ha Hb. split; [apply Z.lor_nonneg; lia|].
  destruct (Z.eq_dec (Z.lor a b) 0) as [E|E]; [rewrite E; lia|].
  apply Z.log2_lt_pow2; [pose proof (Z.lor_nonneg a b); lia|].
  rewrite Z.log2_lor by lia.
  assert (Hl : forall y, 0 <= y < 2 ^ 32 -> Z.log2 y < 32).
  { intros y Hy. destruct (Z.eq_dec y 0) as [->|Hy0]; [reflexivity|].
    apply Z.log2_lt_pow2; lia. }
  apply Z.max_lub_lt; apply Hl; assumption.
Qed.

Lemma u32_id (x : Z) : 0 <= x < 2 ^ 32 -> u32 x = x.
Proof. intros H. unfold u32, wrap. apply Z.mod_small. exact H. Qed.

Lemma u32_range (x : Z) : 0 <= u32 x < 2 ^ 32.
Proof. unfold u32, wrap. apply Z.mod_pos_bound. lia. Qed.

End U32Facts.

Module RowsProofs.
Import Wire Rows U32Facts.

Lemma varuint32_step (fuel : nat) (s acc b : Z) (rest : list Z) :
  read_varuint32_aux (S fuel) s acc (b :: rest) =
  let acc' := Z.lor acc (u32 (Z.shiftl (Z.land b 127) s)) in
  if Z.testbit b 7 then read_varuint32_aux fuel (s + 7) acc' rest else Some (acc', rest).
Proof. reflexivity. Qed.

Lemma unsigned_int_step (s v b : Z) (rest : list Z) :
  read_unsigned_int_aux s v (b :: rest) =
  let v' := Z.lor v (u32 (Z.shiftl (Z.land b 127) s)) in
  if Z.testbit b 7 && (s + 7 <? 32) then read_unsigned_int_aux (s + 7) v' rest
  else Some (u32 v', rest).
Proof. reflexivity. Qed.

(** Where abieos's [read_varuint32] succeeds, eosio's [unsigned_int]
    reader reads the same value and leaves the same bytes. *)
Lemma read_unsigned_int_agrees (fuel : nat) : forall s v bin n rest,
  (fuel <= 5)%nat -> s = 7 * (5 - Z.of_nat fuel) -> 0 <= v < 2 ^ 32 ->
  read_varuint32_aux fuel s v bin = Some (n, rest) ->
  read_unsigned_int_aux s v bin = Some (n, rest).
Proof.
  induction fuel as [|fuel IH]; intros s v bin n rest Hf Hs Hv H; [discriminate H|].
  destruct bin as [|b bin]; [discriminate H|].
  rewrite varuint32_step in H. rewrite unsigned_int_step. cbv zeta in H |- *.
  pose proof (lor_u32_range v _ Hv (u32_range (Z.shiftl (Z.land b 127) s))) as Hr.
  destruct (Z.testbit b 7); cbn [andb].
  - destruct fuel as [|fuel']; [discriminate H|].
    rewrite (proj2 (Z.ltb_lt (s + 7) 32)) by lia.
    apply IH; [lia | lia | exact Hr | exact H].
  - injection H as <- <-. rewrite u32_id by exact Hr. reflexivity.
Qed.

Lemma read_unsigned_int_of_varuint32 (bin : list Z) (n : Z) (rest : list Z) :
  read_varuint32 bin = Some (n, rest) -> read_unsigned_int bin = Some (n, rest).
Proof.
  intros H. apply (read_unsigned_int_agrees 5); [lia | lia | lia | exact H].
Qed.

Lemma read_row_agrees (ds b ds' : list Z) :
  read_input_buffer ds = Some (b, ds') -> read_row ds = Some (b, ds').
Proof.
  unfold read_input_buffer, read_row.
  destruct (read_varuint32 ds) as [[len rest]|] eqn:E; intros H; [|discriminate H].
  rewrite (read_unsigned_int_of_varuint32 _ _ _ E). exact H.
Qed.

Section WithCallback.
Variables (St T : Type).
Variable unpack_row : list Z -> option contract_row.
Variable unpack_T : list Z -> option T.
Variable f : contract_row -> option T -> M St bool.

Lemma for_each_rows_spec n :
  forall ds blobs rows,
  read_blobs n ds = Some blobs ->
  Forall2 (fun b r => unpack_row b = Some r) blobs rows ->
  forall st,
  for_each_rows St contract_row unpack_row
    (contract_row_lambda St T unpack_T f) n ds st
  = contract_rows_spec unpack_T f rows st.
Proof.
  induction n as [|n IH]; intros ds blobs rows Hb Hf st; simpl in Hb.
  - injection Hb as <-. inversion Hf. reflexivity.
  - cbn [for_each_rows].
    destruct (read_input_buffer ds) as [[b ds']|] eqn:Eb; [|discriminate Hb].
    rewrite (read_row_agrees _ _ _ Eb).
    destruct (read_blobs n ds') as [bl'|] eqn:Er; simpl in Hb; [|discriminate Hb].
    injection Hb as <-. inversion Hf as [|b' r bl'' rs Hr Hrest]; subst.
    rewrite Hr. simpl. unfold contract_row_lambda.
    assert (Step : forall arg st,
      (b0 <- (b1 <- f r arg ;; if negb b1 then ret false else ret true) ;;
       if negb b0 then ret false
       else for_each_rows St contract_row unpack_row
              (contract_row_lambda St T unpack_T f) n ds') st
      = (b1 <- f r arg ;; if b1 then contract_rows_spec unpack_T f rs else ret false) st).
    { intros arg st0. unfold bind. destruct (f r arg st0) as [[|] st1 | e st1 | st1];
        simpl; try reflexivity. apply (IH _ _ _ Er Hrest). }
    destruct (present r); destruct (remaining_nonzero (value r)); simpl;
      try apply Step.
    destruct (unpack_T (value r)) as [p|]; [apply Step | reflexivity].
Qed.

End WithCallback.

(** C9: on a result whose blobs decode into [rows], [for_each_contract_row]
    passes [f] a null pointer exactly for rows that are absent or have an
    empty value, otherwise the unpacked value, in row order, and stops
    with [false] at the first row where [f] returns [false]
    ([contract_rows_spec]). *)
Theorem for_each_contract_row_null_and_stop St T unpack_row unpack_T f bytes blobs rows :
  query_result_blobs bytes = Some blobs ->
  Forall2 (fun b r => unpack_row b = Some r) blobs rows ->
  forall st : St,
  for_each_contract_row St T unpack_row unpack_T f bytes st
  = contract_rows_spec unpack_T f rows st.
Proof.
  intros Hb Hf st. unfold for_each_contract_row, for_each_query_result, query_result_blobs in *.
  destruct (read_varuint32 bytes) as [[size ds]|] eqn:E; [|discriminate Hb].
  rewrite (read_unsigned_int_of_varuint32 _ _ _ E).
  exact (for_each_rows_spec St T unpack_row unpack_T f _ ds blobs rows Hb Hf st).
Qed.


Lemma for_each_contract_row_null_and_stop_witness :
  query_result_blobs RowsSpec.toy_bytes = Some RowsSpec.toy_blobs /\
  Forall2 (fun b r => RowsSpec.toy_unpack_row b = Some r) RowsSpec.toy_blobs RowsSpec.toy_rows /\
  for_each_contract_row _ _ RowsSpec.toy_unpack_row RowsSpec.toy_unpack_T RowsSpec.toy_f
    RowsSpec.toy_bytes []
  = contract_rows_spec RowsSpec.toy_unpack_T RowsSpec.toy_f RowsSpec.toy_rows [].
Proof.
  assert (H1 : query_result_blobs RowsSpec.toy_bytes = Some RowsSpec.toy_blobs) by reflexivity.
  assert (H2 : Forall2 (fun b r => RowsSpec.toy_unpack_row b = Some r)
                 RowsSpec.toy_blobs RowsSpec.toy_rows) by (repeat constructor).
  split; [exact H1|]. split; [exact H2|].
  exact (for_each_contract_row_null_and_stop _ _ RowsSpec.toy_unpack_row RowsSpec.toy_unpack_T
           RowsSpec.toy_f _ _ _ H1 H2 []).
Defined.

(** On that input, [f] saw [Some 5], then [nullptr] for the absent row and
    for the empty value, then [Some 9], where it stopped with [false]. *)
Example for_each_contract_row_toy :
  for_each_contract_row _ _ RowsSpec.toy_unpack_row RowsSpec.toy_unpack_T RowsSpec.toy_f
    RowsSpec.toy_bytes [] = Ret false [Some 9; None; None; Some 5].
Proof. reflexivity. Qed.

End RowsProofs.

(* ------------------------------------------------------------------ *)
(** * Further properties of the code *)

Module WireProofs.
Import Wire Guest U32Facts.

Lemma land_127 (v : Z) : Z.land v 127 = v mod 128.
Proof. change 127 with (Z.ones 7). rewrite Z.land_ones by lia. reflexivity. Qed.

(** Or-ing a value below [2^s] with a multiple of [2^s] adds them. *)
Lemma lor_disjoint (a x s : Z) :
  0 <= s -> 0 <= a < 2 ^ s -> Z.lor a (x * 2 ^ s) = a + x * 2 ^ s.
Proof.
  intros Hs Ha.
  assert (L : Z.land a (x * 2 ^ s) = 0).
  { apply Z.bits_inj'. intros n Hn. rewrite Z.land_spec, Z.bits_0.
    destruct (Z.lt_ge_cases n s) as [Hlt|Hge].
    - rewrite Z.mul_pow2_bits_low by exact Hlt. apply andb_false_r.
    - destruct (Z.eq_dec a 0) as [->|Hne]; [rewrite Z.bits_0; reflexivity|].
      rewrite Z.bits_above_log2; [reflexivity|lia|].
      apply Z.lt_le_trans with s; [|exact Hge].
      apply Z.log2_lt_pow2; lia. }
  rewrite <- Z.lxor_lor by exact L. rewrite <- Z.add_nocarry_lxor by exact L. reflexivity.
Qed.

Lemma push_step (fuel : nat) (v : Z) :
  push_varuint32_aux (S fuel) v =
  if Z.shiftr v 7 >? 0 then Z.lor (Z.land v 127) 128 :: push_varuint32_aux fuel (Z.shiftr v 7)
  else [Z.land v 127].
Proof. reflexivity. Qed.

Lemma read_step (fuel : nat) s acc b rest :
  read_varuint32_aux (S fuel) s acc (b :: rest) =
  if Z.testbit b 7
  then read_varuint32_aux fuel (s + 7) (Z.lor acc (u32 (Z.shiftl (Z.land b 127) s))) rest
  else Some (Z.lor acc (u32 (Z.shiftl (Z.land b 127) s)), rest).
Proof. reflexivity. Qed.

(** The final byte of an encoding: below 128, high bit clear. *)
Lemma read_last_byte (k : nat) s acc v rest :
  0 <= v < 128 -> 0 <= s -> 0 <= acc < 2 ^ s -> acc + v * 2 ^ s < 2 ^ 32 ->
  read_varuint32_aux (S k) s acc (v :: rest) = Some (acc + v * 2 ^ s, rest).
Proof.
  intros Hv Hs Hacc Hsum. rewrite read_step.
  assert (Ht : Z.testbit v 7 = false).
  { apply Z.testbit_false; [lia|]. rewrite Z.div_small by (simpl; lia). reflexivity. }
  rewrite Ht, land_127, Z.mod_small by lia.
  rewrite Z.shiftl_mul_pow2 by lia.
  assert (0 <= v * 2 ^ s) by (apply Z.mul_nonneg_nonneg; lia).
  rewrite u32_id by lia. rewrite lor_disjoint by lia. reflexivity.
Qed.

Lemma read_push_aux (k : nat) : forall v s acc rest,
  0 <= v < 2 ^ (7 * Z.of_nat (S k)) -> 0 <= s -> 0 <= acc < 2 ^ s ->
  acc + v * 2 ^ s < 2 ^ 32 ->
  read_varuint32_aux (S k) s acc (push_varuint32_aux (S k) v ++ rest)
  = Some (acc + v * 2 ^ s, rest).
Proof.
  induction k as [|k IH]; intros v s acc rest Hv Hs Hacc Hsum;
    rewrite push_step, land_127, Z.shiftr_div_pow2 by lia;
    change (2 ^ 7) with 128.
  - rewrite Z.div_small by (simpl in Hv; lia). simpl (0 >? 0). simpl app.
    rewrite Z.mod_small by (simpl in Hv; lia).
    apply read_last_byte; simpl in Hv; lia.
  - destruct (v / 128 >? 0) eqn:Eq.
    + apply Z.gtb_lt in Eq.
      pose proof (Z.mod_pos_bound v 128 ltac:(lia)) as Hm.
      pose proof (Z.div_mod v 128 ltac:(lia)) as Hd.
      assert (Hor : Z.lor (v mod 128) 128 = v mod 128 + 128).
      { pose proof (lor_disjoint (v mod 128) 1 7 ltac:(lia) ltac:(simpl; lia)) as L.
        simpl in L. exact L. }
      rewrite Hor. rewrite <- app_comm_cons. rewrite read_step.
      assert (Ht : Z.testbit (v mod 128 + 128) 7 = true).
      { apply Z.testbit_true; [lia|]. change (2 ^ 7) with 128.
        replace (v mod 128 + 128) with (v mod 128 + 1 * 128) by lia.
        rewrite Z.div_add by lia. rewrite Z.div_small by lia. reflexivity. }
      rewrite Ht, land_127.
      replace ((v mod 128 + 128) mod 128) with (v mod 128)
        by (replace (v mod 128 + 128) with (v mod 128 + 1 * 128) by lia;
            rewrite Z.mod_add by lia; rewrite Z.mod_mod by lia; reflexivity).
      rewrite Z.shiftl_mul_pow2 by lia.
      assert (Hp : 0 < 2 ^ s) by (apply Z.pow_pos_nonneg; lia).
      assert (Hvs : v mod 128 * 2 ^ s <= v * 2 ^ s)
        by (apply Z.mul_le_mono_nonneg_r; [lia | apply Z.mod_le; lia]).
      assert (Hm0 : 0 <= v mod 128 * 2 ^ s) by (apply Z.mul_nonneg_nonneg; lia).
      rewrite u32_id by lia. rewrite lor_disjoint by lia.
      assert (Hp7 : 2 ^ (s + 7) = 2 ^ s * 128) by (rewrite Z.pow_add_r by lia; reflexivity).
      rewrite IH.
      * f_equal. f_equal. rewrite Hp7. rewrite Hd at 3. ring.
      * split; [apply Z.div_pos; lia|].
        apply Z.div_lt_upper_bound; [lia|].
        replace (7 * Z.of_nat (S (S k))) with (7 + 7 * Z.of_nat (S k)) in Hv by lia.
        rewrite Z.pow_add_r in Hv by lia. exact (proj2 Hv).
      * lia.
      * rewrite Hp7. split; [nia|]. nia.
      * rewrite Hp7. nia.
    + assert (Hz : v / 128 = 0).
      { rewrite Z.gtb_ltb, Z.ltb_ge in Eq. pose proof (Z.div_pos v 128 ltac:(lia) ltac:(lia)). lia. }
      assert (Hv128 : v < 128).
      { pose proof (Z.div_mod v 128 ltac:(lia)). pose proof (Z.mod_pos_bound v 128 ltac:(lia)). lia. }
      simpl app. rewrite Z.mod_small by lia.
      apply read_last_byte; lia.
Qed.

Lemma read_push_varuint32 (v : Z) (rest : list Z) :
  0 <= v < 2 ^ 32 -> read_varuint32 (push_varuint32 v ++ rest) = Some (v, rest).
Proof.
  intros Hv. unfold read_varuint32, push_varuint32. rewrite u32_id by exact Hv.
  rewrite (read_push_aux 4 v 0 0 rest); [f_equal; f_equal; simpl; ring | simpl; lia | lia | simpl; lia | simpl; lia].
Qed.

Lemma read_varuint32_aux_range (fuel : nat) : forall s acc bin n rest,
  0 <= acc < 2 ^ 32 -> read_varuint32_aux fuel s acc bin = Some (n, rest) -> 0 <= n < 2 ^ 32.
Proof.
  induction fuel as [|fuel IH]; intros s acc bin n rest Hacc H; [discriminate H|].
  destruct bin as [|b bin]; [discriminate H|]. rewrite read_step in H.
  pose proof (lor_u32_range acc _ Hacc (u32_range (Z.shiftl (Z.land b 127) s))) as Hr.
  destruct (Z.testbit b 7).
  - exact (IH _ _ _ _ _ Hr H).
  - injection H as <- _. exact Hr.
Qed.

Lemma read_varuint32_range (bin : list Z) (n : Z) (rest : list Z) :
  read_varuint32 bin = Some (n, rest) -> 0 <= n < 2 ^ 32.
Proof. apply read_varuint32_aux_range. lia. Qed.

Lemma read_input_buffer_bytes_bin (b rest : list Z) :
  Z.of_nat (List.length b) < 2 ^ 32 -> read_input_buffer (bytes_bin b ++ rest) = Some (b, rest).
Proof.
  intros Hb. unfold read_input_buffer, bytes_bin. rewrite <- app_assoc.
  rewrite read_push_varuint32 by lia. rewrite Nat2Z.id.
  rewrite length_app.
  destruct (List.length b <=? List.length b + List.length rest)%nat eqn:E;
    [|apply Nat.leb_nle in E; lia].
  rewrite firstn_app, Nat.sub_diag, firstn_all, firstn_O, app_nil_r.
  rewrite skipn_app, Nat.sub_diag, skipn_all, skipn_O. reflexivity.
Qed.

Lemma read_blobs_concat (bs : list (list Z)) (rest : list Z) :
  Forall (fun b => Z.of_nat (List.length b) < 2 ^ 32) bs ->
  Rows.read_blobs (List.length bs) (List.concat (map bytes_bin bs) ++ rest) = Some bs.
Proof.
  induction bs as [|b bs IH]; intros Hf; [reflexivity|].
  inversion Hf as [|x l Hb Hbs]; subst. simpl.
  rewrite <- app_assoc, read_input_buffer_bytes_bin by exact Hb.
  rewrite IH by exact Hbs. reflexivity.
Qed.

Lemma query_result_blobs_bin (bs : list (list Z)) :
  Z.of_nat (List.length bs) < 2 ^ 32 ->
  Forall (fun b => Z.of_nat (List.length b) < 2 ^ 32) bs ->
  Rows.query_result_blobs (blobs_bin bs) = Some bs.
Proof.
  intros Hn Hf. unfold Rows.query_result_blobs, blobs_bin.
  rewrite read_push_varuint32 by lia. rewrite Nat2Z.id.
  rewrite <- (app_nil_r (List.concat (map bytes_bin bs))).
  apply read_blobs_concat. exact Hf.
Qed.

(** X1: [push_varuint32] and [read_varuint32] are inverse on [uint32_t]
    values: decoding an encoded count or length gives it back and leaves
    the bytes after it unread. *)
Theorem varuint32_round_trip (v : Z) (rest : list Z) :
  0 <= v < 2 ^ 32 -> read_varuint32 (push_varuint32 v ++ rest) = Some (v, rest).
Proof. apply read_push_varuint32. Qed.

Lemma varuint32_round_trip_witness :
  0 <= 300 < 2 ^ 32 /\ read_varuint32 (push_varuint32 300 ++ [9]) = Some (300, [9]).
Proof.
  assert (H : 0 <= 300 < 2 ^ 32) by lia.
  split; [exact H | exact (varuint32_round_trip 300 [9] H)].
Defined.

(** X2: reading a count and then that many length-prefixed blobs, as
    the loop of [for_each_query_result] does, gives back the
    [vector<vector<char>>] serialization it is documented to take: the
    blobs come back in order, none lost or split. *)
Theorem query_result_blobs_round_trip (bs : list (list Z)) :
  Z.of_nat (List.length bs) < 2 ^ 32 ->
  Forall (fun b => Z.of_nat (List.length b) < 2 ^ 32) bs ->
  Rows.query_result_blobs (blobs_bin bs) = Some bs.
Proof. apply query_result_blobs_bin. Qed.

Lemma query_result_blobs_round_trip_witness :
  Z.of_nat (List.length [[1; 2]; []; [3]]) < 2 ^ 32 /\
  Forall (fun b => Z.of_nat (List.length b) < 2 ^ 32) [[1; 2]; []; [3]] /\
  Rows.query_result_blobs (blobs_bin [[1; 2]; []; [3]]) = Some [[1; 2]; []; [3]].
Proof.
  assert (H1 : Z.of_nat (List.length [[1; 2]; []; [3]]) < 2 ^ 32) by (simpl; lia).
  assert (H2 : Forall (fun b => Z.of_nat (List.length b) < 2 ^ 32) [[1; 2]; []; [3]])
    by (repeat constructor; simpl; lia).
  split; [exact H1|]. split; [exact H2|].
  exact (query_result_blobs_round_trip _ H1 H2).
Defined.

End WireProofs.

Module DriverRunProofs.
Import Wire Driver DriverSpec Guest GuestSpec.

(** A committed [for] loop: one guest run and one passed fork check per
    sub-request, all on the thread's current session, and one framed
    blob per sub-request appended to [result]. *)
Lemma sub_requests_commit guest n : forall bin ts result ts' r',
  sub_requests guest n bin (ts, result) = Ret true (ts', r') ->
  exists names blobs,
    List.length names = n /\ List.length blobs = n /\
    r' = result ++ List.concat (map bytes_bin blobs) /\
    ts_log ts' = run_events (ts_session ts) names ++ ts_log ts /\
    ts_session ts' = ts_session ts.
Proof.
  induction n as [|n IH]; intros bin ts result ts' r' H; simpl in H.
  - injection H as <- <-. exists [], []. simpl.
    rewrite app_nil_r. repeat split; reflexivity.
  - destruct (read_input_buffer bin) as [[req bin']|]; [|discriminate H].
    destruct (read_u64 req) as [[ns req1]|]; [|discriminate H].
    destruct (negb (ns =? local_n)); [discriminate H|].
    destruct (read_u64 req1) as [[sn req2]|]; [|discriminate H].
    unfold run_query in H.
    destruct (guest sn _ _ _) as [g|outs]; [discriminate H|].
    unfold did_fork in H. simpl in H.
    destruct (get_block_id (ts_session ts) (head (ts_fill ts))) as [id|]; [|discriminate H].
    destruct (negb (bytes_eqb id (head_id (ts_fill ts)))); [discriminate H|].
    apply IH in H as [names [blobs [Hn [Hb [Hr [Hl Hs]]]]]].
    simpl in Hl, Hs.
    exists (sn :: names), (assign_outputs outs (ts_reply ts) :: blobs).
    split; [simpl; rewrite Hn; reflexivity|]. split; [simpl; rewrite Hb; reflexivity|].
    split; [rewrite Hr; simpl; unfold bytes_bin; rewrite !app_assoc; reflexivity|].
    split; [|exact Hs].
    rewrite Hl. unfold run_events. simpl rev. rewrite map_app, concat_app.
    simpl. rewrite <- app_assoc. reflexivity.
Qed.

(** A committed [query]: the last session it opened ran the final
    attempt, whose loop committed every sub-request. *)
Lemma query_commit sessions guest request created ts r c ts' :
  query sessions guest request (created, ts) = Ret r (c, ts') ->
  exists k n bin names blobs,
    c = S k /\ (created <= k)%nat /\ read_varuint32 request = Some (n, bin) /\
    List.length names = Z.to_nat n /\ List.length blobs = Z.to_nat n /\
    r = push_varuint32 n ++ List.concat (map bytes_bin blobs) /\
    (exists old, ts_log ts' = run_events (sessions k) names ++ old) /\
    ts_session ts' = sessions k.
Proof.
  intros H. unfold query in H.
  destruct (retry_loop sessions (list Z) (query_attempt guest request) (created, (ts, [])))
    as [u [c0 [ts0' r0]] | e [c0 [ts0' r0]] | [c0 [ts0' r0]]] eqn:E;
    try discriminate H.
  injection H as <- <- <-. unfold retry_loop in E.
  destruct u. apply DriverProofs.retry_go_commit in E.
  destruct E as [k [tsa [a0 [Hk [Hc [Hh [ts2 [Hf Hfst]]]]]]]].
  simpl in Hf, Hfst. unfold query_attempt in Hf.
  destruct (read_varuint32 request) as [[n bin]|] eqn:Er; [|discriminate Hf].
  apply sub_requests_commit in Hf as [names [blobs [Hn [Hb [Hr [Hl Hs]]]]]].
  exists k, n, bin, names, blobs.
  split; [exact Hc|]. split; [exact Hk|]. split; [reflexivity|].
  split; [exact Hn|]. split; [exact Hb|]. split; [exact Hr|].
  subst ts0'. split.
  - exists (ts_log tsa). simpl. rewrite Hl. reflexivity.
  - simpl. rewrite Hs. reflexivity.
Qed.

(** The loop releases the session on every path out of it. *)
Lemma retry_go_released sessions A f fuel : forall n created ts a,
  (4 <= fuel + n)%nat -> (n < 4)%nat ->
  ts_session_open (fst (snd (final_state (retry_go sessions A f fuel n (created, (ts, a)))))) = false.
Proof.
  induction fuel as [|fuel IH]; intros n created ts a H4 Hn; [lia|].
  cbn -[Nat.leb].
  destruct (head (get_fill_status (sessions created)) =? 0); [reflexivity|].
  destruct (f _) as [[|] [ts2 a2] | e [ts2 a2] | [ts2 a2]]; try reflexivity.
  destruct (4 <=? S n)%nat eqn:E; [reflexivity|].
  apply Nat.leb_nle in E. apply IH; lia.
Qed.


Lemma retry_go_first_throw sessions A f fuel n created ts a e ts2 a2 :
  head (get_fill_status (sessions created)) <> 0 ->
  f (fill_context_data (set_fill (get_fill_status (sessions created))
                                 (set_session (sessions created) ts)), a) = Thr e (ts2, a2) ->
  retry_go sessions A f (S fuel) n (created, (ts, a)) = Thr e (S created, (release ts2, a2)).
Proof.
  intros Hh Hf. apply Z.eqb_neq in Hh. simpl. simpl in Hh. rewrite Hh.
  simpl in Hf. rewrite Hf. reflexivity.
Qed.


(** X3: a committed [query] reply is the count the request announced,
    then that many length-prefixed blobs ([blobs_bin]); a guest-side
    reader of query results reads the same blobs back from it. *)
Theorem query_reply_framing sessions guest request created ts r c ts' :
  query sessions guest request (created, ts) = Ret r (c, ts') ->
  exists n rest blobs,
    read_varuint32 request = Some (n, rest) /\ List.length blobs = Z.to_nat n /\
    r = blobs_bin blobs /\
    (Forall (fun b => Z.of_nat (List.length b) < 2 ^ 32) blobs ->
     Rows.query_result_blobs r = Some blobs).
Proof.
  intros H. apply query_commit in H.
  destruct H as [k [n [bin [names [blobs [_ [_ [Er [_ [Hb [Hr _]]]]]]]]]]].
  pose proof (WireProofs.read_varuint32_range _ _ _ Er) as Hn.
  assert (Hbin : r = blobs_bin blobs).
  { unfold blobs_bin. rewrite Hb, Z2Nat.id by lia. exact Hr. }
  exists n, bin, blobs. split; [exact Er|]. split; [exact Hb|]. split; [exact Hbin|].
  intros Hf. rewrite Hbin. apply WireProofs.query_result_blobs_bin; [|exact Hf].
  rewrite Hb, Z2Nat.id by lia. lia.
Qed.


(** X5: [query] and [legacy_query] release the query session on every
    path: commit, error, and fault (the [scoped_exit] of [retry_loop]). *)
Theorem drivers_release_session sessions guest target request created ts :
  ts_session_open (snd (final_state (query sessions guest request (created, ts)))) = false /\
  ts_session_open (snd (final_state (legacy_query sessions guest target request (created, ts)))) = false.
Proof.
  split.
  - unfold query, retry_loop.
    pose proof (retry_go_released sessions _ (query_attempt guest request) 4 0 created ts []
                  ltac:(lia) ltac:(lia)) as H.
    destruct (retry_go _ _ _ 4 0 _) as [u [c [ts' r]] | e [c [ts' r]] | [c [ts' r]]];
      exact H.
  - unfold legacy_query, retry_loop.
    pose proof (retry_go_released sessions _ (legacy_attempt guest) 4 0 created
                  (set_request (bytes_bin target ++ bytes_bin request) ts) tt
                  ltac:(lia) ltac:(lia)) as H.
    destruct (retry_go _ _ _ 4 0 _) as [u [c [ts' r]] | e [c [ts' r]] | [c [ts' r]]];
      exact H.
Qed.

(** X6: a request that does not decode fails at once, with no guest run
    and no retry: a count that is not a valid [varuint32] gives
    [E_bad_stream], and a first sub-request whose namespace is not
    [local] gives [E_unknown_namespace]. *)
Theorem query_rejects_malformed_request sessions guest request created ts :
  head (get_fill_status (sessions created)) <> 0 ->
  (read_varuint32 request = None ->
   exists ts', query sessions guest request (created, ts) = Thr E_bad_stream (S created, ts')
               /\ ts_log ts' = ts_log ts) /\
  (forall n bin sub bin' ns req1,
   read_varuint32 request = Some (n, bin) -> 0 < n ->
   read_input_buffer bin = Some (sub, bin') -> read_u64 sub = Some (ns, req1) -> ns <> local_n ->
   exists ts', query sessions guest request (created, ts) = Thr E_unknown_namespace (S created, ts')
               /\ ts_log ts' = ts_log ts).
Proof.
  intros Hh. split.
  - intros Er. unfold query, retry_loop.
    erewrite retry_go_first_throw; [| exact Hh |].
    2: { unfold query_attempt. rewrite Er. reflexivity. }
    eexists. split; reflexivity.
  - intros n bin sub bin' ns req1 Er Hn Eb Es Ens. unfold query, retry_loop.
    erewrite retry_go_first_throw; [| exact Hh |].
    2: { unfold query_attempt. rewrite Er.
         assert (Hm : (0 < Z.to_nat n)%nat) by lia.
         destruct (Z.to_nat n) as [|m]; [lia|].
         simpl. rewrite Eb, Es.
         apply Z.eqb_neq in Ens. rewrite Ens. reflexivity. }
    eexists. split; reflexivity.
Qed.



Lemma query_reply_framing_witness :
  query always_stable guest_silent_bb req_aa_bb (0%nat, ts0)
  = Ret (reply_of [[7]; [7]])
        (1%nat, snd (final_state (query always_stable guest_silent_bb req_aa_bb (0%nat, ts0)))) /\
  exists n rest blobs,
    read_varuint32 req_aa_bb = Some (n, rest) /\ List.length blobs = Z.to_nat n /\
    reply_of [[7]; [7]] = blobs_bin blobs /\
    (Forall (fun b => Z.of_nat (List.length b) < 2 ^ 32) blobs ->
     Rows.query_result_blobs (reply_of [[7]; [7]]) = Some blobs).
Proof.
  assert (H : query always_stable guest_silent_bb req_aa_bb (0%nat, ts0)
              = Ret (reply_of [[7]; [7]])
                  (1%nat, snd (final_state (query always_stable guest_silent_bb req_aa_bb (0%nat, ts0)))))
    by (vm_compute; reflexivity).
  split; [exact H|].
  exact (query_reply_framing always_stable guest_silent_bb req_aa_bb 0%nat ts0 _ _ _ H).
Defined.


Lemma query_rejects_malformed_request_witness :
  head (get_fill_status (always_stable 0)) <> 0 /\
  read_varuint32 req_truncated = None /\
  (exists ts', query always_stable guest_silent_bb req_truncated (0%nat, ts0)
               = Thr E_bad_stream (1%nat, ts') /\ ts_log ts' = ts_log ts0) /\
  read_varuint32 req_foreign = Some (1, sub_request name_aa name_aa []) /\
  read_input_buffer (sub_request name_aa name_aa [])
    = Some (u64_bytes name_aa ++ u64_bytes name_aa, []) /\
  read_u64 (u64_bytes name_aa ++ u64_bytes name_aa) = Some (name_aa, u64_bytes name_aa) /\
  name_aa <> local_n /\
  (exists ts', query always_stable guest_silent_bb req_foreign (0%nat, ts0)
               = Thr E_unknown_namespace (1%nat, ts') /\ ts_log ts' = ts_log ts0).
Proof.
  assert (Hh : head (get_fill_status (always_stable 0)) <> 0) by (vm_compute; intros E; discriminate E).
  assert (H1 : read_varuint32 req_truncated = None) by (vm_compute; reflexivity).
  assert (H2 : read_varuint32 req_foreign = Some (1, sub_request name_aa name_aa []))
    by (vm_compute; reflexivity).
  assert (H3 : 0 < 1) by lia.
  assert (H4 : read_input_buffer (sub_request name_aa name_aa [])
               = Some (u64_bytes name_aa ++ u64_bytes name_aa, [])) by (vm_compute; reflexivity).
  assert (H5 : read_u64 (u64_bytes name_aa ++ u64_bytes name_aa) = Some (name_aa, u64_bytes name_aa))
    by (vm_compute; reflexivity).
  assert (H6 : name_aa <> local_n) by (vm_compute; intros E; discriminate E).
  pose proof (query_rejects_malformed_request always_stable guest_silent_bb req_truncated 0%nat ts0 Hh)
    as [P1 _].
  pose proof (query_rejects_malformed_request always_stable guest_silent_bb req_foreign 0%nat ts0 Hh)
    as [_ P2].
  split; [exact Hh|]. split; [exact H1|]. split; [exact (P1 H1)|].
  split; [exact H2|]. split; [exact H4|]. split; [exact H5|]. split; [exact H6|].
  exact (P2 _ _ _ _ _ _ H2 H3 H4 H5 H6).
Defined.



End DriverRunProofs.

Module HostMemProofs.
Import Host HostSpec HostMem.

Lemma app_prefix_split {X : Type} (l1 l2 : list X) (n : nat) :
  List.length l1 = n -> firstn n (l1 ++ l2) = l1 /\ skipn n (l1 ++ l2) = l2.
Proof.
  revert n. induction l1 as [|x l1 IH]; intros n Hn; simpl in Hn; subst n; [split; reflexivity|].
  simpl. destruct (IH (List.length l1) eq_refl) as [H1 H2]. rewrite H1, H2. split; reflexivity.
Qed.

Lemma alloc_write_landed exec payload d idx h x mem' :
  Z.of_nat (List.length payload) < 2 ^ 32 ->
  exec (h_mem h) idx d (Z.of_nat (List.length payload)) = Some (Some (I32 x), mem') ->
  u32 x + Z.of_nat (List.length payload) <= Z.of_nat (List.length mem') ->
  exists h', (data <- alloc exec d idx (u32 (Z.of_nat (List.length payload))) ;;
              write_mem data payload) h = Ret tt h' /\
             landed mem' (u32 x) payload h' /\
             h_table_calls h' = (idx, d, Z.of_nat (List.length payload)) :: h_table_calls h.
Proof.
  intros Hsz Hex Hfit.
  pose proof (HostProofs.u32_nonneg x) as Hx.
  rewrite HostProofs.u32_small by lia.
  unfold alloc, bind, ret, check_bounds, write_mem. rewrite Hex.
  destruct (u32 x >? u32 x + Z.of_nat (List.length payload)) eqn:Eb;
    [apply Z.gtb_lt in Eb; lia|].
  cbv beta iota. unfold ret. cbv beta iota. cbn [h_mem set_mem log_table_call].
  destruct ((0 <=? u32 x) && (u32 x + Z.of_nat (List.length payload) <=? Z.of_nat (List.length mem')))
    eqn:Ew; [|apply andb_false_iff in Ew as [E|E]; apply Z.leb_nle in E; lia].
  set (o := Z.to_nat (u32 x)). set (L := List.length payload).
  set (A := firstn o mem'). set (C := skipn (o + L) mem').
  assert (HA : List.length A = o) by (unfold A; rewrite length_firstn; lia).
  assert (HC : List.length C = (List.length mem' - (o + L))%nat)
    by (unfold C; rewrite length_skipn; reflexivity).
  eexists. split; [reflexivity|]. split; [|reflexivity].
  unfold landed. simpl h_mem.
  destruct (app_prefix_split A (payload ++ C) o HA) as [F1 S1].
  destruct (app_prefix_split payload C L eq_refl) as [F2 S2].
  assert (Hlen : List.length (A ++ payload ++ C) = List.length mem')
    by (rewrite !length_app, HA, HC; fold L; lia).
  split; [exact Hlen|]. split; [|split].
  - unfold read_mem. simpl h_mem. rewrite Hlen. fold L o.
    destruct ((0 <=? u32 x) && (u32 x <=? u32 x + Z.of_nat L) &&
              (u32 x + Z.of_nat L <=? Z.of_nat (List.length mem'))) eqn:Er.
    + replace (Z.to_nat (u32 x + Z.of_nat L - u32 x)) with L by lia.
      fold o. rewrite S1, F2. reflexivity.
    + apply andb_false_iff in Er as [Er|Er]; [apply andb_false_iff in Er as [Er|Er]|];
        apply Z.leb_nle in Er; lia.
  - fold o. rewrite F1. reflexivity.
  - fold o L. rewrite app_assoc.
    destruct (app_prefix_split (A ++ payload) C (o + L) ltac:(rewrite length_app, HA; reflexivity))
      as [_ S3].
    rewrite S3. reflexivity.
Qed.

(** X9: [set_output_data], [query_database] and [print_range] reject a
    reversed range ([end < begin]) with [E_bad_memory] before anything
    else: no guest byte read, no [cb_alloc] call, no reply or console
    change. *)
Theorem host_reversed_range_rejected exec sq console b e d idx h :
  e < b ->
  set_output_data b e h = Thr E_bad_memory h /\
  query_database exec sq b e d idx h = Thr E_bad_memory h /\
  print_range console b e h = Thr E_bad_memory h.
Proof.
  intros H. unfold set_output_data, query_database, print_range, bind, check_bounds.
  destruct (b >? e) eqn:E; [|rewrite Z.gtb_ltb, Z.ltb_ge in E; lia].
  repeat split; reflexivity.
Qed.

Lemma host_reversed_range_rejected_witness :
  3 < 5 /\
  set_output_data 5 3 small_host = Thr E_bad_memory small_host /\
  query_database cb_alloc_at_4 (fun _ => []) 5 3 0 1 small_host = Thr E_bad_memory small_host /\
  print_range true 5 3 small_host = Thr E_bad_memory small_host.
Proof.
  assert (H : 3 < 5) by lia.
  split; [exact H|].
  exact (host_reversed_range_rejected cb_alloc_at_4 (fun _ => []) true 5 3 0 1 small_host H).
Defined.

(** X10: [alloc] accepts whatever i32 offset [cb_alloc] returns: for a
    non-negative size its bounds check never fails, and the offset is
    returned as is (as a [uint32_t]), with the memory the callback left. *)
Theorem alloc_accepts_any_offset exec d idx size h x mem' :
  0 <= size ->
  exec (h_mem h) idx d size = Some (Some (I32 x), mem') ->
  alloc exec d idx size h = Ret (u32 x) (set_mem mem' (log_table_call (idx, d, size) h)).
Proof.
  intros Hs Hex. unfold alloc. rewrite Hex. unfold bind, check_bounds.
  pose proof (HostProofs.u32_nonneg x).
  destruct (u32 x >? u32 x + size) eqn:E; [apply Z.gtb_lt in E; lia | reflexivity].
Qed.

Lemma alloc_accepts_any_offset_witness :
  0 <= 16 /\ cb_alloc_near_end (h_mem page_host) 1 7 16 = Some (Some (I32 65530), h_mem page_host) /\
  alloc cb_alloc_near_end 7 1 16 page_host
  = Ret (u32 65530) (set_mem (h_mem page_host) (log_table_call (1, 7, 16) page_host)).
Proof.
  assert (H1 : 0 <= 16) by lia.
  assert (H2 : cb_alloc_near_end (h_mem page_host) 1 7 16 = Some (Some (I32 65530), h_mem page_host))
    by reflexivity.
  split; [exact H1|]. split; [exact H2|].
  exact (alloc_accepts_any_offset cb_alloc_near_end 7 1 16 page_host 65530 (h_mem page_host) H1 H2).
Defined.

(** X11: on a range inside guest memory, [set_output_data] makes the
    reply exactly the bytes [begin, end) and [print_range] with the
    console on appends exactly those bytes to the console; with the
    console off [print_range] reads nothing and changes nothing, for any
    ordered range. *)
Theorem guest_range_copied h :
  (forall b e, 0 <= b <= e -> e <= Z.of_nat (List.length (h_mem h)) ->
   let bs := firstn (Z.to_nat (e - b)) (skipn (Z.to_nat b) (h_mem h)) in
   set_output_data b e h = Ret tt (set_reply bs h) /\
   print_range true b e h = Ret tt (add_console bs h)) /\
  (forall b e, b <= e -> print_range false b e h = Ret tt h).
Proof.
  split.
  - intros b e Hb He bs. unfold set_output_data, print_range, bind.
    rewrite !HostProofs.check_bounds_ordered by lia.
    unfold read_mem.
    destruct ((0 <=? b) && (b <=? e) && (e <=? Z.of_nat (List.length (h_mem h)))) eqn:E.
    + split; reflexivity.
    + apply andb_false_iff in E as [E|E]; [apply andb_false_iff in E as [E|E]|];
        apply Z.leb_nle in E; lia.
  - intros b e H. unfold print_range, bind. rewrite HostProofs.check_bounds_ordered by exact H.
    reflexivity.
Qed.

Lemma guest_range_copied_witness :
  (0 <= 2 <= 5 /\ 5 <= Z.of_nat (List.length (h_mem small_host))) /\
  set_output_data 2 5 small_host = Ret tt (set_reply [0; 0; 0] small_host) /\
  70000 <= 70008 /\ print_range false 70000 70008 small_host = Ret tt small_host.
Proof.
  assert (H1 : 0 <= 2 <= 5) by lia.
  assert (H2 : 5 <= Z.of_nat (List.length (h_mem small_host))) by (simpl; lia).
  assert (H3 : 70000 <= 70008) by lia.
  split; [split; assumption|]. split.
  - exact (proj1 (proj1 (guest_range_copied small_host) 2 5 H1 H2)).
  - split; [exact H3|]. exact (proj2 (guest_range_copied small_host) 70000 70008 H3).
Defined.

(** X12: when [cb_alloc] returns an offset whose range fits in the
    memory it leaves, [get_database_status], [get_input_data] and
    [query_database] succeed; afterwards the range holds exactly the
    payload, the rest of memory is as [cb_alloc] left it, and the memory
    keeps its size. *)
Theorem host_payload_lands_at_offset exec dbs rest sq d idx h :
  (forall x mem', Z.of_nat (List.length dbs) < 2 ^ 32 ->
   exec (h_mem h) idx d (Z.of_nat (List.length dbs)) = Some (Some (I32 x), mem') ->
   u32 x + Z.of_nat (List.length dbs) <= Z.of_nat (List.length mem') ->
   exists h', get_database_status exec dbs d idx h = Ret tt h' /\ landed mem' (u32 x) dbs h') /\
  (forall x mem', Z.of_nat (List.length rest) < 2 ^ 32 ->
   exec (h_mem h) idx d (Z.of_nat (List.length rest)) = Some (Some (I32 x), mem') ->
   u32 x + Z.of_nat (List.length rest) <= Z.of_nat (List.length mem') ->
   exists h', get_input_data exec rest d idx h = Ret tt h' /\ landed mem' (u32 x) rest h') /\
  (forall rb re x mem', 0 <= rb <= re -> re <= Z.of_nat (List.length (h_mem h)) ->
   let res := sq (firstn (Z.to_nat (re - rb)) (skipn (Z.to_nat rb) (h_mem h))) in
   Z.of_nat (List.length res) < 2 ^ 32 ->
   exec (h_mem h) idx d (Z.of_nat (List.length res)) = Some (Some (I32 x), mem') ->
   u32 x + Z.of_nat (List.length res) <= Z.of_nat (List.length mem') ->
   exists h', query_database exec sq rb re d idx h = Ret tt h' /\ landed mem' (u32 x) res h').
Proof.
  split; [|split].
  - intros x mem' Hs Hex Hfit. unfold get_database_status.
    destruct (alloc_write_landed exec dbs d idx h x mem' Hs Hex Hfit) as [h' [E [L _]]].
    exists h'. split; [exact E | exact L].
  - intros x mem' Hs Hex Hfit. unfold get_input_data.
    destruct (alloc_write_landed exec rest d idx h x mem' Hs Hex Hfit) as [h' [E [L _]]].
    exists h'. split; [exact E | exact L].
  - intros rb re x mem' Hr Hm res Hs Hex Hfit. unfold query_database.
    destruct (alloc_write_landed exec res d idx h x mem' Hs Hex Hfit) as [h' [E [L _]]].
    exists h'. split; [|exact L].
    unfold bind at 1. rewrite HostProofs.check_bounds_ordered by lia.
    unfold bind at 1. unfold read_mem.
    destruct ((0 <=? rb) && (rb <=? re) && (re <=? Z.of_nat (List.length (h_mem h)))) eqn:Eq.
    + exact E.
    + apply andb_false_iff in Eq as [Eq|Eq]; [apply andb_false_iff in Eq as [Eq|Eq]|];
        apply Z.leb_nle in Eq; lia.
Qed.

Lemma host_payload_lands_at_offset_witness :
  Z.of_nat (List.length [1; 2; 3]) < 2 ^ 32 /\
  cb_alloc_at_4 (h_mem small_host) 1 0 (Z.of_nat (List.length [1; 2; 3]))
    = Some (Some (I32 4), h_mem small_host) /\
  u32 4 + Z.of_nat (List.length [1; 2; 3]) <= Z.of_nat (List.length (h_mem small_host)) /\
  exists h', get_database_status cb_alloc_at_4 [1; 2; 3] 0 1 small_host = Ret tt h' /\
             landed (h_mem small_host) (u32 4) [1; 2; 3] h'.
Proof.
  assert (H1 : Z.of_nat (List.length [1; 2; 3]) < 2 ^ 32) by (simpl; lia).
  assert (H2 : cb_alloc_at_4 (h_mem small_host) 1 0 (Z.of_nat (List.length [1; 2; 3]))
               = Some (Some (I32 4), h_mem small_host)) by reflexivity.
  assert (H3 : u32 4 + Z.of_nat (List.length [1; 2; 3]) <= Z.of_nat (List.length (h_mem small_host)))
    by (vm_compute; intros E; discriminate E).
  split; [exact H1|]. split; [exact H2|]. split; [exact H3|].
  exact (proj1 (host_payload_lands_at_offset cb_alloc_at_4 [1; 2; 3] [] (fun _ => []) 0 1 small_host)
           4 (h_mem small_host) H1 H2 H3).
Defined.

End HostMemProofs.

Module StatusProofs.
Import Wire Driver DriverSpec Guest.

Lemma le_value_u32_bytes x : 0 <= x < 2 ^ 32 -> le_value (u32_bytes x) = x.
Proof.
  intros Hx. unfold u32_bytes. cbn [le_value].
  change 255 with (Z.ones 8). rewrite !Z.land_ones by lia.
  rewrite !Z.shiftr_div_pow2 by lia.
  replace (x / 2 ^ 16) with (x / 2 ^ 8 / 2 ^ 8) by (rewrite Z.div_div by lia; reflexivity).
  replace (x / 2 ^ 24) with (x / 2 ^ 8 / 2 ^ 8 / 2 ^ 8) by (rewrite !Z.div_div by lia; reflexivity).
  change (2 ^ 8) with 256.
  set (y1 := x / 256). set (y2 := y1 / 256). set (y3 := y2 / 256).
  pose proof (Z.div_mod x 256 ltac:(lia)) as E1. fold y1 in E1.
  pose proof (Z.div_mod y1 256 ltac:(lia)) as E2. fold y2 in E2.
  pose proof (Z.div_mod y2 256 ltac:(lia)) as E3. fold y3 in E3.
  pose proof (Z.mod_pos_bound x 256 ltac:(lia)).
  pose proof (Z.mod_pos_bound y1 256 ltac:(lia)).
  pose proof (Z.mod_pos_bound y2 256 ltac:(lia)).
  assert (Hy3 : 0 <= y3 < 256) by (change (2 ^ 32) with 4294967296 in Hx; lia).
  rewrite (Z.mod_small y3 256 Hy3). lia.
Qed.

Lemma read_u32_bytes x rest : 0 <= x < 2 ^ 32 -> read_u32 (u32_bytes x ++ rest) = Some (x, rest).
Proof.
  intros Hx. unfold read_u32.
  destruct (HostMemProofs.app_prefix_split (u32_bytes x) rest 4 eq_refl) as [F S].
  rewrite length_app. cbn [List.length u32_bytes].
  rewrite F, S, le_value_u32_bytes by exact Hx. reflexivity.
Qed.

Lemma read_checksum256_bytes id rest :
  List.length id = 32%nat -> read_checksum256 (id ++ rest) = Some (id, rest).
Proof.
  intros Hl. unfold read_checksum256.
  destruct (HostMemProofs.app_prefix_split id rest 32 Hl) as [F S].
  rewrite length_app, Hl, F, S. reflexivity.
Qed.

(** X13: the bytes [fill_context_data] serializes for
    [get_database_status] unpack, through the guest's
    [get_database_status()], to the thread's fill status field by field,
    when the block numbers are 32-bit and the ids are 32 bytes. *)
Theorem guest_reads_back_database_status ts :
  let f := ts_fill ts in
  in_width 32 (head f) -> List.length (head_id f) = 32%nat ->
  in_width 32 (irreversible f) -> List.length (irreversible_id f) = 32%nat ->
  in_width 32 (first f) ->
  unpack_database_status (ts_database_status (fill_context_data ts))
  = Some (mk_database_status (head f) (head_id f) (irreversible f) (irreversible_id f) (first f)).
Proof.
  intros f H1 H2 H3 H4 H5. unfold fill_context_data, set_database_status. fold f.
  cbn [ts_database_status]. unfold unpack_database_status.
  rewrite read_u32_bytes by exact H1.
  rewrite read_checksum256_bytes by exact H2.
  rewrite read_u32_bytes by exact H3.
  rewrite read_checksum256_bytes by exact H4.
  rewrite <- (app_nil_r (u32_bytes (first f))).
  rewrite read_u32_bytes by exact H5. reflexivity.
Qed.

Lemma guest_reads_back_database_status_witness :
  in_width 32 100 /\ List.length id_a = 32%nat /\
  unpack_database_status
    (ts_database_status (fill_context_data (mk_ts (always_stable 0) true (fill_at 100 id_a) [] [] [] [])))
  = Some (mk_database_status 100 id_a 100 id_a 1).
Proof.
  assert (H1 : in_width 32 100) by (unfold in_width; lia).
  assert (H2 : List.length id_a = 32%nat) by reflexivity.
  assert (H3 : in_width 32 1) by (unfold in_width; lia).
  split; [exact H1|]. split; [exact H2|].
  exact (guest_reads_back_database_status (mk_ts (always_stable 0) true (fill_at 100 id_a) [] [] [] [])
           H1 H2 H1 H2 H3).
Defined.

End StatusProofs.

Module KeyOrderProofs.
Import Key KeySpec GuestSpec.

Lemma succ_fields_carry_zeros (fs : list (Z * Z)) :
  fst (succ_fields fs) = true -> Forall (fun v => v = 0) (map snd (snd (succ_fields fs))).
Proof.
  induction fs as [|[w v] rest IH]; simpl; intros H; [constructor|].
  destruct (succ_fields rest) as [carry rest'] eqn:Es. simpl in IH.
  destruct carry; simpl in H |- *; [|discriminate H].
  apply Z.eqb_eq in H. constructor; [exact H | apply IH; reflexivity].
Qed.

Lemma no_lex_below_zero (xs ys : list Z) :
  Forall (fun x => 0 <= x) xs -> Forall (fun y => y = 0) ys -> ~ lex_lt xs ys.
Proof.
  revert ys. induction xs as [|x xs IH]; intros ys Hx Hy Hl; [destruct ys; exact Hl|].
  destruct ys as [|y ys]; [exact Hl|].
  inversion Hx; inversion Hy; subst. simpl in Hl.
  destruct Hl as [Hl|[_ Hl]]; [lia|]. exact (IH ys ltac:(assumption) ltac:(assumption) Hl).
Qed.

Lemma no_lex_above_max (fs gs : list (Z * Z)) :
  fields_ok gs -> all_max fs -> map fst gs = map fst fs -> ~ lex_lt (map snd fs) (map snd gs).
Proof.
  revert gs. induction fs as [|[w v] fs IH]; intros gs Hg Hm Hw Hl; [exact Hl|].
  destruct gs as [|[w' u] gs]; [exact Hl|].
  inversion Hg as [|x l Hx Hg']; inversion Hm as [|x' l' Hv Hm']; subst.
  destruct Hx as [Hw' Hu]. simpl in Hw. injection Hw as -> Hw. simpl in Hl. unfold in_width in Hu.
  destruct Hl as [Hl|[_ Hl]]; [lia|]. exact (IH gs Hg' Hm' Hw Hl).
Qed.

Lemma fields_ok_nonneg (fs : list (Z * Z)) : fields_ok fs -> Forall (fun x => 0 <= x) (map snd fs).
Proof.
  induction 1 as [|[w v] l Hx _ IH]; constructor; [|exact IH].
  destruct Hx as [_ Hv]. unfold in_width in Hv. simpl. lia.
Qed.

Lemma succ_fields_immediate (fs : list (Z * Z)) :
  forall gs, fields_ok fs -> fields_ok gs -> map fst gs = map fst fs ->
  fst (succ_fields fs) = false ->
  ~ (lex_lt (map snd fs) (map snd gs) /\ lex_lt (map snd gs) (map snd (snd (succ_fields fs)))).
Proof.
  induction fs as [|[w v] rest IH]; intros gs Hf Hg Hw Hb [L1 L2]; [exact L1|].
  destruct gs as [|[w' u] grest]; [exact L1|].
  simpl in Hw. injection Hw as -> Hw.
  inversion Hf as [|x l Hx Hf']; inversion Hg as [|x' l' Hy Hg']; subst.
  destruct Hx as [Hpos Hv]. destruct Hy as [_ Hu].
  simpl in Hb, L2.
  pose proof (KeyProofs.succ_fields_spec rest Hf') as Sp.
  pose proof (succ_fields_carry_zeros rest) as Zr.
  destruct (succ_fields rest) as [carry rest'] eqn:Es. simpl in Zr.
  destruct Sp as [_ [Hmax _]].
  destruct carry; simpl in Hb, L2.
  - apply Z.eqb_neq in Hb.
    assert (Hne : v <> 2 ^ w - 1)
      by (intros E; apply Hb, (proj2 (KeyProofs.wrap_succ_zero w v Hpos Hv)), E).
    rewrite (KeyProofs.wrap_succ_small w v Hv Hne) in L2.
    simpl in L1.
    destruct L1 as [L1|[-> L1]].
    + destruct L2 as [L2|[E L2]]; [lia|].
      exact (no_lex_below_zero _ _ (fields_ok_nonneg _ Hg') (Zr eq_refl) L2).
    + exact (no_lex_above_max rest grest Hg' (proj1 Hmax eq_refl) Hw L1).
  - simpl in L1. destruct L1 as [L1|[-> L1]]; destruct L2 as [L2|[E L2]]; try lia.
    apply (IH grest Hf' Hg' Hw); [reflexivity|].
    split; [exact L1 | exact L2].
Qed.

(** X14: when [increment_key] does not wrap, the key it yields is the
    immediate successor: no valid key lies strictly between the old key
    and the new one, for [checksum256] and for the composite
    [action_trace_executed] key. *)
Theorem increment_key_immediate_successor :
  (forall c d, fields_ok (cs_fields c) -> fields_ok (cs_fields d) ->
     fst (increment_key_checksum c) = false ->
     ~ (cs_lt c d /\ cs_lt d (snd (increment_key_checksum c)))) /\
  (forall k j, fields_ok (aet_fields k) -> fields_ok (aet_fields j) ->
     fst (increment_key_aet k) = false ->
     ~ (key_lt k j /\ key_lt j (snd (increment_key_aet k)))).
Proof.
  split.
  - intros c d Hc Hd Hb.
    pose proof (KeyProofs.increment_key_checksum_refines c) as R.
    destruct (increment_key_checksum c) as [b c'] eqn:E. simpl in Hb |- *.
    pose proof (succ_fields_immediate (cs_fields c) (cs_fields d) Hc Hd eq_refl) as I.
    rewrite R in I. exact (I Hb).
  - intros k j Hk Hj Hb.
    pose proof (KeyProofs.increment_key_aet_refines k) as R.
    destruct (increment_key_aet k) as [b k'] eqn:E. simpl in Hb |- *.
    pose proof (succ_fields_immediate (aet_fields k) (aet_fields j) Hk Hj eq_refl) as I.
    rewrite R in I. exact (I Hb).
Qed.

Lemma increment_key_immediate_successor_witness :
  fields_ok (aet_fields key_mid) /\ fields_ok (aet_fields key_other) /\
  fst (increment_key_aet key_mid) = false /\
  ~ (key_lt key_mid key_other /\ key_lt key_other (snd (increment_key_aet key_mid))).
Proof.
  assert (H1 : fields_ok (aet_fields key_mid)).
  { unfold fields_ok, aet_fields, cs_fields, key_mid, in_width; simpl. repeat constructor; lia. }
  assert (H2 : fields_ok (aet_fields key_other)).
  { unfold fields_ok, aet_fields, cs_fields, key_other, in_width; simpl. repeat constructor; lia. }
  assert (H3 : fst (increment_key_aet key_mid) = false) by (vm_compute; reflexivity).
  split; [exact H1|]. split; [exact H2|]. split; [exact H3|].
  exact (proj2 increment_key_immediate_successor key_mid key_other H1 H2 H3).
Defined.

(** X15: when [increment_key] reports a wrap, the key it leaves is all
    zeros: every field was incremented and wrapped, for [checksum256]
    and for the composite [action_trace_executed] key. *)
Theorem increment_key_wrap_leaves_zero :
  (forall c, fst (increment_key_checksum c) = true -> snd (increment_key_checksum c) = mk_checksum 0 0) /\
  (forall k, fst (increment_key_aet k) = true ->
     snd (increment_key_aet k)
     = mk_aet_key (mk_name 0) (mk_name 0) (mk_name 0) 0 (mk_checksum 0 0) 0).
Proof.
  split.
  - intros [w0 w1]. unfold increment_key_checksum, increment_key_u128, increment_key_w.
    cbn [cs_word0 cs_word1].
    destruct (wrap 128 (w1 + 1) =? 0) eqn:E1; [|intros H; discriminate H].
    destruct (wrap 128 (w0 + 1) =? 0) eqn:E0; intros H; [|discriminate H].
    apply Z.eqb_eq in E0, E1. simpl. rewrite E0, E1. reflexivity.
  - intros [[n] [rr] [acc] bi [w0 w1] ai].
    unfold increment_key_aet, increment_key_checksum, increment_key_name,
      increment_key_u32, increment_key_u64, increment_key_u128, increment_key_w.
    cbn [k_name k_receipt_receiver k_account k_block_index k_transaction_id k_action_index
         name_value cs_word0 cs_word1].
    destruct (wrap 32 (ai + 1) =? 0) eqn:E6; simpl; [|intros H; discriminate H].
    destruct (wrap 128 (w1 + 1) =? 0) eqn:E5; simpl; [|intros H; discriminate H].
    destruct (wrap 128 (w0 + 1) =? 0) eqn:E4; simpl; [|intros H; discriminate H].
    destruct (wrap 32 (bi + 1) =? 0) eqn:E3; simpl; [|intros H; discriminate H].
    destruct (wrap 64 (acc + 1) =? 0) eqn:E2; simpl; [|intros H; discriminate H].
    destruct (wrap 64 (rr + 1) =? 0) eqn:E1; simpl; [|intros H; discriminate H].
    destruct (wrap 64 (n + 1) =? 0) eqn:E0; simpl; intros H; [|discriminate H].
    apply Z.eqb_eq in E0, E1, E2, E3, E4, E5, E6.
    rewrite E0, E1, E2, E3, E4, E5, E6. reflexivity.
Qed.

Lemma increment_key_wrap_leaves_zero_witness :
  fst (increment_key_aet key_max) = true /\
  snd (increment_key_aet key_max) = mk_aet_key (mk_name 0) (mk_name 0) (mk_name 0) 0 (mk_checksum 0 0) 0.
Proof.
  assert (H : fst (increment_key_aet key_max) = true) by (vm_compute; reflexivity).
  split; [exact H|]. exact (proj2 increment_key_wrap_leaves_zero key_max H).
Defined.

End KeyOrderProofs.

Module RowsReadProofs.
Import Wire Rows Guest GuestSpec.

Section Visit.
Variables (St R : Type).
Variable unpack_R : list Z -> option R.
Variable g : R -> M St bool.

Lemma for_each_rows_visit n :
  forall ds blobs rows,
  read_blobs n ds = Some blobs ->
  Forall2 (fun b r => unpack_R b = Some r) blobs rows ->
  forall st, for_each_rows St R unpack_R g n ds st = visit_rows g rows st.
Proof.
  induction n as [|n IH]; intros ds blobs rows Hb Hf st; simpl in Hb.
  - injection Hb as <-. inversion Hf. reflexivity.
  - cbn [for_each_rows].
    destruct (read_input_buffer ds) as [[b ds']|] eqn:Eb; [|discriminate Hb].
    rewrite (RowsProofs.read_row_agrees _ _ _ Eb).
    destruct (read_blobs n ds') as [bl'|] eqn:Er; simpl in Hb; [|discriminate Hb].
    injection Hb as <-. inversion Hf as [|b' r bl'' rs Hr Hrest]; subst.
    rewrite Hr. cbn [visit_rows]. unfold bind.
    destruct (g r st) as [[|] s'|e s'|s']; cbn [negb]; try reflexivity.
    exact (IH ds' bl' rs Er Hrest s').
Qed.

End Visit.

(** X16: on a well-formed query result, [for_each_query_result] calls
    the callback on the unpacked rows in order and stops at the first
    [false]: it behaves as the plain loop [visit_rows] over the rows. *)
Theorem for_each_query_result_visits_rows St R unpack_R g bytes blobs rows :
  query_result_blobs bytes = Some blobs ->
  Forall2 (fun b r => unpack_R b = Some r) blobs rows ->
  forall st, for_each_query_result St R unpack_R g bytes st = visit_rows g rows st.
Proof.
  intros Hq Hf st. unfold for_each_query_result. unfold query_result_blobs in Hq.
  destruct (read_varuint32 bytes) as [[size ds]|] eqn:E; [|discriminate Hq].
  rewrite (RowsProofs.read_unsigned_int_of_varuint32 _ _ _ E).
  exact (for_each_rows_visit St R unpack_R g _ ds blobs rows Hq Hf st).
Qed.

Lemma for_each_query_result_visits_rows_witness :
  query_result_blobs RowsSpec.toy_bytes = Some RowsSpec.toy_blobs /\
  Forall2 (fun b r => unpack_blob b = Some r) RowsSpec.toy_blobs RowsSpec.toy_blobs /\
  for_each_query_result (list (list Z)) (list Z) unpack_blob log_blob RowsSpec.toy_bytes []
  = visit_rows log_blob RowsSpec.toy_blobs [].
Proof.
  assert (H1 : query_result_blobs RowsSpec.toy_bytes = Some RowsSpec.toy_blobs)
    by (vm_compute; reflexivity).
  assert (H2 : Forall2 (fun b r => unpack_blob b = Some r) RowsSpec.toy_blobs RowsSpec.toy_blobs)
    by (repeat constructor).
  split; [exact H1|]. split; [exact H2|].
  exact (for_each_query_result_visits_rows (list (list Z)) (list Z) unpack_blob log_blob
           RowsSpec.toy_bytes RowsSpec.toy_blobs RowsSpec.toy_blobs H1 H2 []).
Defined.

End RowsReadProofs.
